(** * A round-robin HTTP dispatcher: the balancer of [request/loadbalance.go]

    The development embeds the registry of backend endpoints
    ([RoundRobinBalancer]), its selection, removal and restoration
    operations, and the dispatch loop built on them, as functions in a small
    state monad.  The two older copies of the same logic kept in
    [request/main.go] are embedded next to it under the prefixes [main_] and
    [legacy_].

    Conventions.
    - A [*url.URL] is a pair of an address and the text [u.String()] yields.
      Pointer comparison is comparison of addresses; the program never
      mutates a URL after it has been parsed.
    - [removedUrls] is a Go map keyed by pointer: a finite map from addresses
      to the text of the URL stored there.
    - [currentIndex] is a [uint64]: an integer with wrap-around at [2^64].
    - [net/url] and the network are parameters of the development:
      [url_Parse] gives the text of the parsed URL or fails, [http_Do]
      answers the [k]-th round trip. *)

From stdpp Require Import base option list gmap strings.
From Stdlib Require Import ZArith Lia.

Local Open Scope string_scope.

(** ** Data *)

Record URL := mkURL { addr : nat; URL_String : string }.

#[global] Instance URL_eq_dec : EqDecision URL.
Proof. solve_decision. Defined.

Record RoundRobinBalancer := mkBalancer {
  activeUrls : list URL;
  removedUrls : gmap nat string;
  currentIndex : Z;
  lock : bool
}.

(** What the transport hands back when no error occurred.  [Body] is [None]
    when reading the body fails. *)
Record Response := mkResponse { StatusCode : Z; Body : option string }.

Inductive event :=
| EvRoundTrip (target : string) (lockHeld : bool)
| EvLog (line : string).

(** The balancer, the allocator of URL addresses, the number of round trips
    issued so far, and what the run has shown to the outside. *)
Record World := mkWorld {
  balancer : RoundRobinBalancer;
  brk : nat;
  sent : nat;
  trace : list event
}.

Definition uint64_modulus : Z := 2 ^ 64.

Definition wrap64 (z : Z) : Z := (z mod uint64_modulus)%Z.

(** ** The monad of the embedding *)

Inductive Result (A : Type) :=
| Ret (a : A) (w : World)
| Panic
| OutOfFuel.

Arguments Ret {A} a w.
Arguments Panic {A}.
Arguments OutOfFuel {A}.

Definition M (A : Type) : Type := World → Result A.

#[global] Instance M_ret : MRet M := λ A a w, Ret a w.

#[global] Instance M_bind : MBind M := λ A B f m w,
  match m w with
  | Ret a w' => f a w'
  | Panic => Panic
  | OutOfFuel => OutOfFuel
  end.

Definition this : M RoundRobinBalancer := λ w, Ret (balancer w) w.

Definition update (f : RoundRobinBalancer → RoundRobinBalancer) : M unit :=
  λ w, Ret () (mkWorld (f (balancer w)) (brk w) (sent w) (trace w)).

Definition emit (e : event) : M unit :=
  λ w, Ret () (mkWorld (balancer w) (brk w) (sent w) (trace w ++ [e])).

Definition log_Println (line : string) : M unit := emit (EvLog line).

Definition panic {A} : M A := λ _, Panic.

Definition out_of_fuel {A} : M A := λ _, OutOfFuel.

(** [sync.Mutex]: the flag records whether the critical section is open.
    The runs of this development are sequential and no operation takes the
    mutex twice, so [Lock] never has to wait. *)
Definition Lock : M unit :=
  update (λ r, mkBalancer (activeUrls r) (removedUrls r) (currentIndex r) true).

Definition Unlock : M unit :=
  update (λ r, mkBalancer (activeUrls r) (removedUrls r) (currentIndex r) false).

(** [defer d] at the top of a function body: [d] runs when the body returns. *)
Definition deferring {A} (d : M unit) (body : M A) : M A :=
  a ← body; d;; mret a.

(** [s[i]]: faults when [i] is out of range. *)
Definition at_index (s : list URL) (i : nat) : M URL :=
  match s !! i with
  | Some u => mret u
  | None => panic
  end.

Definition set_activeUrls (l : list URL) : M unit :=
  update (λ r, mkBalancer l (removedUrls r) (currentIndex r) (lock r)).

Definition set_removedUrls (m : gmap nat string) : M unit :=
  update (λ r, mkBalancer (activeUrls r) m (currentIndex r) (lock r)).

(** [atomic.LoadUint64(&r.currentIndex)]. *)
Definition atomic_LoadUint64 : M Z := r ← this; mret (currentIndex r).

(** [atomic.AddUint64(&r.currentIndex, delta)]: stores and returns the new
    value. *)
Definition atomic_AddUint64 (delta : Z) : M Z :=
  r ← this;
  let new := wrap64 (currentIndex r + delta) in
  update (λ r, mkBalancer (activeUrls r) (removedUrls r) new (lock r));;
  mret new.

(** [for _, x := range xs { body x }]. *)
Fixpoint for_each {A} (xs : list A) (body : A → M unit) : M unit :=
  match xs with
  | [] => mret ()
  | x :: rest => body x;; for_each rest body
  end.

Section Balancer.

(** [url.Parse] composed with [String]: the text of the parsed URL. *)
Variable url_Parse : string → option string.

(** The [k]-th round trip, to the given target: [None] is a transport
    error. *)
Variable http_Do : nat → string → option Response.

(** [url.Parse(s)]: a URL at a fresh address, or [None] on error. *)
Definition url_Parse_new (s : string) : M (option URL) :=
  match url_Parse s with
  | None => mret None
  | Some t => λ w, Ret (Some (mkURL (brk w) t))
                       (mkWorld (balancer w) (S (brk w)) (sent w) (trace w))
  end.

(** [http.NewRequestWithContext(ctx, GET, s, nil)]: with a valid method and
    a context, it fails exactly when [url.Parse(s)] does.  The request is
    represented by its target. *)
Definition http_NewRequestWithContext (s : string) : option string :=
  match url_Parse s with
  | None => None
  | Some _ => Some s
  end.

(** [http.DefaultClient.Do(req)]. *)
Definition DefaultClient_Do (req : string) : M (option Response) :=
  λ w, Ret (http_Do (sent w) req)
           (mkWorld (balancer w) (brk w) (S (sent w))
                    (trace w ++ [EvRoundTrip req (lock (balancer w))])).

(** [http.Get(s)]: builds the request, then sends it. *)
Definition http_Get (s : string) : M (option Response) :=
  match http_NewRequestWithContext s with
  | None => mret None
  | Some req => DefaultClient_Do req
  end.

(** ** [request/loadbalance.go] *)

Fixpoint parse_backends (backendUrls : list URL) : M (list URL) :=
  match backendUrls with
  | [] => mret []
  | backendsURL :: rest =>
      parsed ← url_Parse_new (URL_String backendsURL);
      match parsed with
      | None =>
          log_Println ("Invalid URL " ++ URL_String backendsURL);;
          parse_backends rest
      | Some parsedURL =>
          more ← parse_backends rest;
          mret (parsedURL :: more)
      end
  end.

Definition NewRoundRobinBalancer (backendUrls : list URL) : M RoundRobinBalancer :=
  activeUrls ← parse_backends backendUrls;
  mret (mkBalancer activeUrls ∅ 0 false).

(** [balancer := NewRoundRobinBalancer(backends)]. *)
Definition install (backendUrls : list URL) : M unit :=
  r ← NewRoundRobinBalancer backendUrls;
  update (λ _, r).

Definition GetNextURL : M (option URL) :=
  Lock;;
  deferring Unlock (
    r ← this;
    if decide (length (activeUrls r) = 0) then mret None
    else
      currentIndex ← atomic_LoadUint64;
      url ← at_index (activeUrls r)
               (Z.to_nat (currentIndex mod Z.of_nat (length (activeUrls r))));
      atomic_AddUint64 1;;
      mret (Some url)).

(** The loop of [RemoveURL]: cuts out the first entry whose text is the
    target's, and stops. *)
Fixpoint excise (target : string) (urls : list URL) : list URL :=
  match urls with
  | [] => []
  | u :: rest =>
      if decide (URL_String u = target) then rest
      else u :: excise target rest
  end.

Definition RemoveURL (urlToRemove : URL) : M unit :=
  Lock;;
  deferring Unlock (
    r ← this;
    set_removedUrls (<[addr urlToRemove := URL_String urlToRemove]> (removedUrls r));;
    set_activeUrls (excise (URL_String urlToRemove) (activeUrls r))).

(** One iteration of the loop of [CheckAndRestoreUrls], at the key stored at
    address [a].  A key deleted before the loop reaches it is not
    produced. *)
Definition restore_entry (a : nat) : M unit :=
  r ← this;
  match removedUrls r !! a with
  | None => mret ()
  | Some urlStr =>
      match http_NewRequestWithContext urlStr with
      | None => log_Println "Error creating request"
      | Some req =>
          resp ← DefaultClient_Do req;
          match resp with
          | Some resp =>
              if decide (StatusCode resp = 200%Z) then
                parsed ← url_Parse_new urlStr;
                match parsed with
                | None => log_Println ("Invalid URL " ++ urlStr)
                | Some parsedURL =>
                    r ← this;
                    set_activeUrls (activeUrls r ++ [parsedURL]);;
                    set_removedUrls (delete a (removedUrls r))
                end
              else mret ()
          | None => mret ()
          end
      end
  end.

(** [order] is the order in which the runtime produces the keys of
    [removedUrls]; Go leaves it unspecified. *)
Definition CheckAndRestoreUrls (order : list nat) : M unit :=
  Lock;;
  deferring Unlock (for_each order restore_entry).

(** One [fuel] per selection: the loop of [SendRequest] has no bound of its
    own. *)
Fixpoint SendRequest (fuel : nat) : M unit :=
  match fuel with
  | O => out_of_fuel
  | S fuel =>
      serverURL ← GetNextURL;
      match serverURL with
      | None => log_Println "No active servers available"
      | Some serverURL =>
          match http_NewRequestWithContext (URL_String serverURL) with
          | None => log_Println "Error creating request"
          | Some req =>
              resp ← DefaultClient_Do req;
              match resp with
              | None => RemoveURL serverURL;; SendRequest fuel
              | Some resp =>
                  if decide (StatusCode resp = 200%Z) then
                    match Body resp with
                    | None => log_Println "Error reading response"
                    | Some body => log_Println ("Response from server: " ++ body)
                    end
                  else SendRequest fuel
              end
          end
      end
  end.

(** ** [request/main.go], first program

    [RemoveURL], [CheckAndRestoreUrls] and [sendRequest] are those of
    [loadbalance.go]; [GetNextURL] advances the cursor before it reads it. *)

Definition main_GetNextURL : M (option URL) :=
  Lock;;
  deferring Unlock (
    r ← this;
    if decide (length (activeUrls r) = 0) then mret None
    else
      index ← atomic_AddUint64 1;
      url ← at_index (activeUrls r)
               (Z.to_nat (index mod Z.of_nat (length (activeUrls r))));
      mret (Some url)).

Definition main_RemoveURL (urlToRemove : URL) : M unit :=
  Lock;;
  deferring Unlock (
    r ← this;
    set_removedUrls (<[addr urlToRemove := URL_String urlToRemove]> (removedUrls r));;
    set_activeUrls (excise (URL_String urlToRemove) (activeUrls r))).

Definition main_CheckAndRestoreUrls (order : list nat) : M unit :=
  Lock;;
  deferring Unlock (for_each order restore_entry).

Fixpoint main_sendRequest (fuel : nat) : M unit :=
  match fuel with
  | O => out_of_fuel
  | S fuel =>
      serverURL ← main_GetNextURL;
      match serverURL with
      | None => log_Println "No active servers available"
      | Some serverURL =>
          match http_NewRequestWithContext (URL_String serverURL) with
          | None => log_Println "Error creating request"
          | Some req =>
              resp ← DefaultClient_Do req;
              match resp with
              | None => main_RemoveURL serverURL;; main_sendRequest fuel
              | Some resp =>
                  if decide (StatusCode resp = 200%Z) then
                    match Body resp with
                    | None => log_Println "Error reading response"
                    | Some body => log_Println ("Response from server: " ++ body)
                    end
                  else main_sendRequest fuel
              end
          end
      end
  end.

(** ** [request/main.go], second program

    [GetNextURL] and [RemoveURL] are those of the first program.  The prober
    uses [http.Get] and looks at the error only; [sendRequest] makes one
    attempt. *)

Definition legacy_GetNextURL : M (option URL) := main_GetNextURL.

Definition legacy_RemoveURL (urlToRemove : URL) : M unit := main_RemoveURL urlToRemove.

(** The error of [url.Parse] is dropped here and a nil pointer would be
    appended; [http.Get] has parsed the same text before, so the case does
    not arise ([legacy_restore_entry_parses]). *)
Definition legacy_restore_entry (a : nat) : M unit :=
  r ← this;
  match removedUrls r !! a with
  | None => mret ()
  | Some urlStr =>
      resp ← http_Get urlStr;
      match resp with
      | Some _ =>
          parsed ← url_Parse_new urlStr;
          match parsed with
          | None => panic
          | Some parsedUrl =>
              r ← this;
              set_activeUrls (activeUrls r ++ [parsedUrl]);;
              set_removedUrls (delete a (removedUrls r))
          end
      | None => mret ()
      end
  end.

Definition legacy_CheckAndRestoreUrls (order : list nat) : M unit :=
  Lock;;
  deferring Unlock (for_each order legacy_restore_entry).

Definition legacy_sendRequest : M unit :=
  serverURL ← legacy_GetNextURL;
  match serverURL with
  | None => log_Println "No active servers available"
  | Some serverURL =>
      resp ← http_Get (URL_String serverURL);
      match resp with
      | None =>
          log_Println ("Error making request to " ++ URL_String serverURL);;
          legacy_RemoveURL serverURL
      | Some resp =>
          if decide (StatusCode resp ≠ 200%Z) then
            log_Println ("Server " ++ URL_String serverURL ++ " responded with non-200 status")
          else
            match Body resp with
            | None => log_Println ("Error reading response from " ++ URL_String serverURL)
            | Some body =>
                log_Println ("Response from server " ++ URL_String serverURL ++ ": " ++ body)
            end
      end
  end.

End Balancer.

(** ** Reading the state *)

Definition with_balancer (w : World) (r : RoundRobinBalancer) : World :=
  mkWorld r (brk w) (sent w) (trace w).

(** The position [GetNextURL] of [loadbalance.go] reads. *)
Definition slot (r : RoundRobinBalancer) : nat :=
  Z.to_nat (currentIndex r mod Z.of_nat (length (activeUrls r))).

(** The position [GetNextURL] of [main.go] reads. *)
Definition main_slot (r : RoundRobinBalancer) : nat :=
  Z.to_nat (wrap64 (currentIndex r + 1) mod Z.of_nat (length (activeUrls r))).

Definition texts (urls : list URL) : list string := URL_String <$> urls.

Definition removed_texts (r : RoundRobinBalancer) : list string :=
  (map_to_list (removedUrls r)).*2.

(** ** Concrete worlds *)

(** The configuration of [main] and of the tests. *)
Definition backends : list URL :=
  [mkURL 0 "http://localhost:81"; mkURL 1 "http://localhost:82";
   mkURL 2 "http://localhost:83"].

(** The world before the balancer is built: three addresses are taken by
    [backends]. *)
Definition boot : World := mkWorld (mkBalancer [] ∅ 0 false) 3 0 [].

(** Every text parses, to itself. *)
Definition parse_any (s : string) : option string := Some s.

(** The world once [main] has built its balancer from [backends]. *)
Definition serving : World :=
  mkWorld (mkBalancer [mkURL 3 "http://localhost:81"; mkURL 4 "http://localhost:82";
                       mkURL 5 "http://localhost:83"] ∅ 0 false) 6 0 [].


(** ** Windows of selections *)

(** [n] consecutive calls of [GetNextURL], with nothing in between. *)
Fixpoint select_many (n : nat) : M (list (option URL)) :=
  match n with
  | O => mret []
  | S n => o ← GetNextURL; rest ← select_many n; mret (o :: rest)
  end.

Definition times_returned (u : URL) (picks : list (option URL)) : nat :=
  length (filter (λ o, o = Some u) picks).

(** Round-robin fairness over a window of [n] selections: the entries come
    in the cyclic order of [activeUrls], from the position of the first
    call on, and each is returned between [⌊n/K⌋] and [⌈n/K⌉] times. *)
Definition fair_window (w : World) (n : nat) : Prop :=
  let urls := activeUrls (balancer w) in
  let K := length urls in
  ∃ picks w', select_many n w = Ret picks w'
    ∧ (∀ i, (i < n)%nat →
         picks !! i = Some (urls !! Nat.modulo (slot (balancer w) + i) K))
    ∧ (∀ u, u ∈ urls →
         (Nat.div n K ≤ times_returned u picks ≤ Nat.div (n + K - 1) K)%nat).

(** The entries at the positions [c], [c + 1], ... of the rotation. *)
Fixpoint rotation (urls : list URL) (c : Z) (n : nat) : list (option URL) :=
  match n with
  | O => []
  | S n =>
      urls !! Z.to_nat (c mod Z.of_nat (length urls)) :: rotation urls (c + 1) n
  end.

(** How many integers below [x] are congruent to [j] modulo [K], up to a
    constant. *)
Definition below (K j x : Z) : Z := ((x - j + K - 1) / K)%Z.

(** The cursor at its last value before the wrap, over three entries. *)
Definition at_wrap : World :=
  mkWorld (mkBalancer [mkURL 3 "http://localhost:81"; mkURL 4 "http://localhost:82";
                       mkURL 5 "http://localhost:83"] ∅ (2 ^ 64 - 1) false) 6 0 [].

(** ** Lifetimes *)

Inductive call :=
| CallNext
| CallRemove (urlToRemove : URL)
| CallRestore (order : list nat).

Section Lifetime.

Variable url_Parse : string → option string.
Variable http_Do : nat → string → option Response.

Definition perform (c : call) : M unit :=
  match c with
  | CallNext => GetNextURL;; mret ()
  | CallRemove urlToRemove => RemoveURL urlToRemove
  | CallRestore order => CheckAndRestoreUrls url_Parse http_Do order
  end.

(** The answer to a probe of the text [s] sent as round trip [k]; [None]
    when the request cannot be built or the transport fails. *)
Definition probe (k : nat) (s : string) : option Response :=
  match url_Parse s with
  | None => None
  | Some _ => http_Do k s
  end.

(** The probe completes and its status is 200. *)
Definition healthy (k : nat) (s : string) : bool :=
  match probe k s with
  | Some resp => bool_decide (StatusCode resp = 200%Z)
  | None => false
  end.

(** What a call does to the cursor: a selection on a non-empty
    [activeUrls] adds one, nothing else touches it. *)
Definition cursor_after (c : call) (r : RoundRobinBalancer) : Z :=
  match c with
  | CallNext =>
      if decide (activeUrls r = []) then currentIndex r
      else (currentIndex r + 1)%Z
  | _ => currentIndex r
  end.

(** Along a sequence of calls, each call returns, leaves the cursor where
    [cursor_after] says, and never moves it backwards. *)
Fixpoint cursor_trail (calls : list call) (w : World) : Prop :=
  match calls with
  | [] => True
  | c :: rest =>
      ∃ w', perform c w = Ret () w'
        ∧ currentIndex (balancer w') = cursor_after c (balancer w)
        ∧ (currentIndex (balancer w) ≤ currentIndex (balancer w'))%Z
        ∧ cursor_trail rest w'
  end.

End Lifetime.

(** ** Networks *)

(** Every round trip fails in the transport. *)
Definition unreachable : nat → string → option Response := λ _ _, None.

(** Every round trip is answered with the given status and an empty body. *)
Definition answering (status : Z) : nat → string → option Response :=
  λ _ _, Some (mkResponse status (Some "")).

(** The server of [TestSendRequest]. *)
Definition mock_server : nat → string → option Response :=
  λ _ _, Some (mkResponse 200 (Some "mock response")).

(** The world a call of [GetNextURL] leaves behind. *)
Definition after_selection (w : World) : World :=
  match GetNextURL w with
  | Ret _ w' => w'
  | _ => w
  end.

(** ** The registry *)

(** A call of [RemoveURL] that changes neither the active sequence nor the
    texts of the removed set. *)
Definition remove_is_noop (u : URL) (w : World) : Prop :=
  ∃ w', RemoveURL u w = Ret () w'
    ∧ activeUrls (balancer w') = activeUrls (balancer w)
    ∧ (∀ s, s ∈ removed_texts (balancer w') ↔ s ∈ removed_texts (balancer w)).

(** No two active entries with the same text, and no text both active and
    removed. *)
Definition registry_invariant (r : RoundRobinBalancer) : Prop :=
  NoDup (texts (activeUrls r))
  ∧ (∀ s, s ∈ texts (activeUrls r) → s ∉ removed_texts r).

Section Registry.

Variable url_Parse : string → option string.
Variable http_Do : nat → string → option Response.

(** The invariant holds now and after each call of the sequence, and each
    call returns. *)
Fixpoint invariant_trail (calls : list call) (w : World) : Prop :=
  registry_invariant (balancer w)
  ∧ match calls with
    | [] => True
    | c :: rest =>
        ∃ w', perform url_Parse http_Do c w = Ret () w' ∧ invariant_trail rest w'
    end.

(** Every [RemoveURL] of the sequence is handed a URL whose text is active
    when the call is made, as the dispatcher does. *)
Fixpoint removals_hit (calls : list call) (w : World) : Prop :=
  match calls with
  | [] => True
  | c :: rest =>
      match c with
      | CallRemove u => URL_String u ∈ texts (activeUrls (balancer w))
      | _ => True
      end
      ∧ (∀ w', perform url_Parse http_Do c w = Ret () w' → removals_hit rest w')
  end.

(** Parsing a text that [url.Parse] produced gives the same text back. *)
Definition parse_stable : Prop :=
  ∀ s t, url_Parse s = Some t → url_Parse t = Some t.

(** What the operations keep when removals hit: the active texts are
    distinct, no removed text is active, no text is removed under two
    keys, and every text of the registry parses to itself. *)
Definition registry_sound (urls : list URL) (m : gmap nat string) : Prop :=
  NoDup (texts urls)
  ∧ (∀ a s, m !! a = Some s → s ∉ texts urls)
  ∧ (∀ a b s, m !! a = Some s → m !! b = Some s → a = b)
  ∧ (∀ s, s ∈ texts urls → url_Parse s = Some s)
  ∧ (∀ a s, m !! a = Some s → url_Parse s = Some s).

End Registry.

(** The second backend of [main] has been removed. *)
Definition degraded : World :=
  mkWorld (mkBalancer [mkURL 3 "http://localhost:81"; mkURL 5 "http://localhost:83"]
             {[ 4 := "http://localhost:82" ]} 0 false) 6 0 [].

(** ** Dispatch *)

(** A dispatch that ends after a single round trip and moves no endpoint. *)
Definition stops_after_one_round_trip (dispatch : M unit) (w : World) : Prop :=
  ∃ w', dispatch w = Ret () w'
    ∧ sent w' = S (sent w)
    ∧ activeUrls (balancer w') = activeUrls (balancer w)
    ∧ removedUrls (balancer w') = removedUrls (balancer w).


(** The first round trip is answered 404, the later ones 200. *)
Definition flaky : nat → string → option Response :=
  λ k _, match k with
         | O => Some (mkResponse 404 (Some "not found"))
         | S _ => Some (mkResponse 200 (Some "mock response"))
         end.

(** The server at [target] answers 404, every other one 200. *)
Definition refusing (target : string) : nat → string → option Response :=
  λ _ s, if decide (s = target)
         then Some (mkResponse 404 (Some "not found"))
         else Some (mkResponse 200 (Some "mock response")).

(** The world in which the dispatcher sends its request, once [GetNextURL]
    has returned: the cursor has moved and the mutex is free. *)
Definition selected (w : World) : World :=
  with_balancer w
    (mkBalancer (activeUrls (balancer w)) (removedUrls (balancer w))
                (wrap64 (currentIndex (balancer w) + 1)) false).

(** The world after the round trip to [target]. *)
Definition answered (target : string) (w : World) : World :=
  mkWorld (balancer w) (brk w) (S (sent w))
          (trace w ++ [EvRoundTrip target (lock (balancer w))]).

(** ** Critical sections *)

Definition outside_lock (evs : list event) : Prop :=
  ∀ target held, EvRoundTrip target held ∈ evs → held = false.

Definition inside_lock (evs : list event) : Prop :=
  ∀ target held, EvRoundTrip target held ∈ evs → held = true.

(** The operation returns, and all its round trips are made with the mutex
    free. *)
Definition io_outside_lock (op : M unit) (w : World) : Prop :=
  ∃ w' evs, op w = Ret () w' ∧ trace w' = (trace w ++ evs)%list ∧ outside_lock evs.

(** ** Construction *)

(** The lines [NewRoundRobinBalancer] logs: one for each backend whose text
    does not parse, in the order of the configuration. *)
Definition rejections (url_Parse : string → option string)
    (backendUrls : list URL) : list event :=
  omap (λ b, match url_Parse (URL_String b) with
             | None => Some (EvLog ("Invalid URL " ++ URL_String b))
             | Some _ => None
             end) backendUrls.

(** No pointer occurs twice in [activeUrls], and every one of them has been
    handed out by the allocator. *)
Definition pointers_fresh (w : World) : Prop :=
  NoDup (addr <$> activeUrls (balancer w))
  ∧ (∀ u, u ∈ activeUrls (balancer w) → addr u < brk w).

(** ** Probing *)

(** The key [a] of the map [m] gets a request from the prober: it is
    present and a request can be built from its text. *)
Definition probed (url_Parse : string → option string) (m : gmap nat string)
    (a : nat) : Prop :=
  is_Some (m !! a ≫= url_Parse).

#[global] Instance probed_dec (url_Parse : string → option string)
    (m : gmap nat string) (a : nat) : Decision (probed url_Parse m a).
Proof. unfold probed. apply _. Defined.

(** ** Dispatching *)

(** From [w] to [w'] no endpoint has become active, no key has left
    [removedUrls] and nothing has been parsed. *)
Definition only_removes (w w' : World) : Prop :=
  activeUrls (balancer w') `sublist_of` activeUrls (balancer w)
  ∧ (∀ a, is_Some (removedUrls (balancer w) !! a) →
          is_Some (removedUrls (balancer w') !! a))
  ∧ brk w' = brk w
  ∧ (sent w ≤ sent w')%nat.

(** [n] consecutive calls of [GetNextURL] of [main.go]. *)
Fixpoint main_select_many (n : nat) : M (list (option URL)) :=
  match n with
  | O => mret []
  | S n => o ← main_GetNextURL; rest ← main_select_many n; mret (o :: rest)
  end.
(** ** Unfolding the monad *)

Ltac unfold_ops :=
  unfold GetNextURL, main_GetNextURL, legacy_GetNextURL,
    RemoveURL, main_RemoveURL, legacy_RemoveURL,
    deferring, Lock, Unlock, this, update, set_activeUrls, set_removedUrls,
    atomic_LoadUint64, atomic_AddUint64, at_index, panic, out_of_fuel,
    log_Println, emit, with_balancer in *.

Ltac unfold_monad := unfold mbind, M_bind, mret, M_ret in *.

Ltac run := unfold_ops; unfold_monad; cbn in *.

(** Closes [NoDup l] for a list [l] of distinct closed terms. *)
Ltac distinct_entries :=
  repeat (apply NoDup_cons; split;
          [rewrite ?elem_of_cons, elem_of_nil; intuition congruence|]);
  apply NoDup_nil_2.

Lemma slot_in_range (r : RoundRobinBalancer) :
  activeUrls r ≠ [] → slot r < length (activeUrls r).
Proof.
  intros Hne. unfold slot.
  destruct (activeUrls r) as [|u l]; [done|].
  pose proof (Z.mod_pos_bound (currentIndex r) (Z.of_nat (length (u :: l)))) as Hb.
  cbn [length] in *. lia.
Qed.

Lemma main_slot_in_range (r : RoundRobinBalancer) :
  activeUrls r ≠ [] → main_slot r < length (activeUrls r).
Proof.
  intros Hne. unfold main_slot.
  destruct (activeUrls r) as [|u l]; [done|].
  pose proof (Z.mod_pos_bound (wrap64 (currentIndex r + 1))
                (Z.of_nat (length (u :: l)))) as Hb.
  cbn [length] in *. lia.
Qed.

Lemma GetNextURL_empty (w : World) :
  activeUrls (balancer w) = [] →
  GetNextURL w =
    Ret None (with_balancer w
      (mkBalancer [] (removedUrls (balancer w)) (currentIndex (balancer w)) false)).
Proof. intros He. run. rewrite He. reflexivity. Qed.

Lemma GetNextURL_pick (w : World) (u : URL) :
  activeUrls (balancer w) !! slot (balancer w) = Some u →
  GetNextURL w =
    Ret (Some u) (with_balancer w
      (mkBalancer (activeUrls (balancer w)) (removedUrls (balancer w))
                  (wrap64 (currentIndex (balancer w) + 1)) false)).
Proof.
  intros Hu. unfold slot in Hu. run.
  destruct (decide (length (activeUrls (balancer w)) = 0)) as [Hz|Hz].
  - apply nil_length_inv in Hz. rewrite Hz in Hu. done.
  - cbn. rewrite Hu. reflexivity.
Qed.

Lemma main_GetNextURL_empty (w : World) :
  activeUrls (balancer w) = [] →
  main_GetNextURL w =
    Ret None (with_balancer w
      (mkBalancer [] (removedUrls (balancer w)) (currentIndex (balancer w)) false)).
Proof. intros He. run. rewrite He. reflexivity. Qed.

Lemma main_GetNextURL_pick (w : World) (u : URL) :
  activeUrls (balancer w) !! main_slot (balancer w) = Some u →
  main_GetNextURL w =
    Ret (Some u) (with_balancer w
      (mkBalancer (activeUrls (balancer w)) (removedUrls (balancer w))
                  (wrap64 (currentIndex (balancer w) + 1)) false)).
Proof.
  intros Hu. unfold main_slot in Hu. run.
  destruct (decide (length (activeUrls (balancer w)) = 0)) as [Hz|Hz].
  - apply nil_length_inv in Hz. rewrite Hz in Hu. done.
  - cbn. rewrite Hu. reflexivity.
Qed.

Lemma RemoveURL_run (u : URL) (w : World) :
  RemoveURL u w =
    Ret () (with_balancer w
      (mkBalancer (excise (URL_String u) (activeUrls (balancer w)))
                  (<[addr u := URL_String u]> (removedUrls (balancer w)))
                  (currentIndex (balancer w)) false)).
Proof. reflexivity. Qed.

Lemma main_RemoveURL_run (u : URL) (w : World) :
  main_RemoveURL u w =
    Ret () (with_balancer w
      (mkBalancer (excise (URL_String u) (activeUrls (balancer w)))
                  (<[addr u := URL_String u]> (removedUrls (balancer w)))
                  (currentIndex (balancer w)) false)).
Proof. reflexivity. Qed.

(** ** Selection *)

(** C9. [GetNextURL] always returns, in [loadbalance.go] and in [main.go]:
    it never faults on the index, the position it reads lies inside
    [activeUrls], and it returns nil exactly when [activeUrls] is empty. *)
Theorem GetNextURL_never_faults (w : World) :
  (∃ o w', GetNextURL w = Ret o w'
     ∧ (o = None ↔ activeUrls (balancer w) = [])
     ∧ (∀ u, o = Some u →
          slot (balancer w) < length (activeUrls (balancer w))
          ∧ activeUrls (balancer w) !! slot (balancer w) = Some u))
  ∧ (∃ o w', main_GetNextURL w = Ret o w'
     ∧ (o = None ↔ activeUrls (balancer w) = [])
     ∧ (∀ u, o = Some u →
          main_slot (balancer w) < length (activeUrls (balancer w))
          ∧ activeUrls (balancer w) !! main_slot (balancer w) = Some u)).
Proof.
  split.
  - destruct (decide (activeUrls (balancer w) = [])) as [He|Hne].
    + eexists _, _. split; [apply GetNextURL_empty, He|].
      split; [done|]. intros u [=].
    + pose proof (slot_in_range _ Hne) as Hlt.
      destruct (lookup_lt_is_Some_2 _ _ Hlt) as [u Hu].
      eexists _, _. split; [apply GetNextURL_pick, Hu|].
      split; [split; [intros [=]|done]|].
      intros u' [= <-]. done.
  - destruct (decide (activeUrls (balancer w) = [])) as [He|Hne].
    + eexists _, _. split; [apply main_GetNextURL_empty, He|].
      split; [done|]. intros u [=].
    + pose proof (main_slot_in_range _ Hne) as Hlt.
      destruct (lookup_lt_is_Some_2 _ _ Hlt) as [u Hu].
      eexists _, _. split; [apply main_GetNextURL_pick, Hu|].
      split; [split; [intros [=]|done]|].
      intros u' [= <-]. done.
Qed.

(** In [loadbalance.go] the entry at [currentIndex mod len(activeUrls)] is
    returned and the cursor moves on by one, modulo [2^64]. *)
Lemma GetNextURL_selects (w : World) :
  activeUrls (balancer w) ≠ [] →
  ∃ u w', GetNextURL w = Ret (Some u) w'
    ∧ activeUrls (balancer w) !! slot (balancer w) = Some u
    ∧ currentIndex (balancer w') = wrap64 (currentIndex (balancer w) + 1)
    ∧ activeUrls (balancer w') = activeUrls (balancer w)
    ∧ removedUrls (balancer w') = removedUrls (balancer w).
Proof.
  intros Hne. pose proof (slot_in_range _ Hne) as Hlt.
  destruct (lookup_lt_is_Some_2 _ _ Hlt) as [u Hu].
  eexists _, _. split; [apply GetNextURL_pick, Hu|]. done.
Qed.

(** In [main.go] the cursor moves first: the entry read is the one after. *)
Lemma main_GetNextURL_selects (w : World) :
  activeUrls (balancer w) ≠ [] →
  ∃ u w', main_GetNextURL w = Ret (Some u) w'
    ∧ activeUrls (balancer w) !! main_slot (balancer w) = Some u
    ∧ currentIndex (balancer w') = wrap64 (currentIndex (balancer w) + 1).
Proof.
  intros Hne. pose proof (main_slot_in_range _ Hne) as Hlt.
  destruct (lookup_lt_is_Some_2 _ _ Hlt) as [u Hu].
  eexists _, _. split; [apply main_GetNextURL_pick, Hu|]. done.
Qed.

Lemma install_backends : install parse_any backends boot = Ret () serving.
Proof. vm_compute. reflexivity. Qed.

(** C4. On the balancer built from [backends], the first call of
    [GetNextURL] of [loadbalance.go] returns the first backend, as
    [TestRoundRobinBalancer] expects, and the first call of [GetNextURL] of
    [main.go] returns the second one. *)
Theorem main_GetNextURL_skips_first_backend :
  (∃ w', (install parse_any backends;; GetNextURL) boot
           = Ret (Some (mkURL 3 "http://localhost:81")) w')
  ∧ (∃ w', (install parse_any backends;; main_GetNextURL) boot
           = Ret (Some (mkURL 4 "http://localhost:82")) w')
  ∧ (∃ w', (install parse_any backends;; legacy_GetNextURL) boot
           = Ret (Some (mkURL 4 "http://localhost:82")) w').
Proof. repeat split; eexists; vm_compute; reflexivity. Qed.

(** ** Fair rotation *)

Lemma div_by_bounds (a K q : Z) : (q * K ≤ a < q * K + K)%Z → (a / K = q)%Z.
Proof.
  intros H. symmetry. apply (Z.div_unique_pos a K q (a - q * K)); lia.
Qed.

Lemma below_step (K j x : Z) :
  (0 ≤ j < K)%Z →
  below K j (x + 1) = (below K j x + (if decide (x mod K = j)%Z then 1 else 0))%Z.
Proof.
  intros Hj. unfold below.
  pose proof (Z.div_mod x K ltac:(lia)) as Hx.
  pose proof (Z.mod_pos_bound x K ltac:(lia)) as Hr.
  set (q := (x / K)%Z) in *. set (r := (x mod K)%Z) in *.
  destruct (decide (r = j)) as [He|Hne].
  - rewrite (div_by_bounds (x + 1 - j + K - 1) K (q + 1)) by lia.
    rewrite (div_by_bounds (x - j + K - 1) K q) by lia. lia.
  - destruct (decide (r < j)%Z).
    + rewrite (div_by_bounds (x + 1 - j + K - 1) K q) by lia.
      rewrite (div_by_bounds (x - j + K - 1) K q) by lia. lia.
    + rewrite (div_by_bounds (x + 1 - j + K - 1) K (q + 1)) by lia.
      rewrite (div_by_bounds (x - j + K - 1) K (q + 1)) by lia. lia.
Qed.

Lemma div_window (K a n : Z) :
  (0 < K)%Z → (0 ≤ n)%Z →
  (n / K ≤ (a + n) / K - a / K ≤ (n + K - 1) / K)%Z.
Proof.
  intros HK Hn.
  pose proof (Z.div_mod a K ltac:(lia)) as Ha.
  pose proof (Z.mod_pos_bound a K ltac:(lia)) as Hra.
  pose proof (Z.div_mod n K ltac:(lia)) as Hn'.
  pose proof (Z.mod_pos_bound n K ltac:(lia)) as Hrn.
  set (qa := (a / K)%Z) in *. set (ra := (a mod K)%Z) in *.
  set (qn := (n / K)%Z) in *. set (rn := (n mod K)%Z) in *.
  destruct (decide (ra + rn < K)%Z).
  - rewrite (div_by_bounds (a + n) K (qa + qn)) by lia.
    destruct (decide (rn = 0)%Z).
    + rewrite (div_by_bounds (n + K - 1) K qn) by lia. lia.
    + rewrite (div_by_bounds (n + K - 1) K (qn + 1)) by lia. lia.
  - rewrite (div_by_bounds (a + n) K (qa + qn + 1)) by lia.
    rewrite (div_by_bounds (n + K - 1) K (qn + 1)) by lia. lia.
Qed.

Lemma rotation_nil (c c' : Z) (n : nat) : rotation [] c n = rotation [] c' n.
Proof.
  revert c c'. induction n as [|n IH]; intros c c'; [done|].
  cbn. f_equal. apply IH.
Qed.

Lemma rotation_length (urls : list URL) (c : Z) (n : nat) :
  length (rotation urls c n) = n.
Proof. revert c. induction n as [|n IH]; intros c; cbn; [done|]. by rewrite IH. Qed.

Lemma rotation_lookup (urls : list URL) (c : Z) (n i : nat) :
  i < n →
  rotation urls c n !! i
  = Some (urls !! Z.to_nat ((c + Z.of_nat i) mod Z.of_nat (length urls))).
Proof.
  revert c i. induction n as [|n IH]; intros c i Hi; [lia|].
  destruct i as [|i]; cbn [rotation lookup list_lookup].
  - by rewrite Z.add_0_r.
  - rewrite IH by lia.
    by replace (c + 1 + Z.of_nat i)%Z with (c + Z.of_nat (S i))%Z by lia.
Qed.

(** A window of selections that does not carry the cursor past [2^64] reads
    the rotation from the cursor on; nothing else changes. *)
Lemma select_many_rotation (n : nat) (w : World) :
  (0 ≤ currentIndex (balancer w))%Z →
  (currentIndex (balancer w) + Z.of_nat n ≤ uint64_modulus)%Z →
  ∃ w', select_many n w
        = Ret (rotation (activeUrls (balancer w)) (currentIndex (balancer w)) n) w'
    ∧ activeUrls (balancer w') = activeUrls (balancer w)
    ∧ removedUrls (balancer w') = removedUrls (balancer w).
Proof.
  revert w. induction n as [|n IH]; intros w Hc Hn.
  - eexists. split; [reflexivity|done].
  - cbn [select_many rotation]. unfold mbind, M_bind.
    destruct (decide (activeUrls (balancer w) = [])) as [He|Hne].
    + rewrite (GetNextURL_empty w He).
      destruct (IH (with_balancer w
        (mkBalancer [] (removedUrls (balancer w)) (currentIndex (balancer w)) false)))
        as (w' & Hrun & Ha & Hr); [done|cbn; lia|].
      rewrite Hrun. cbn in *. exists w'. rewrite He. split; [|done].
      unfold mret, M_ret. cbn. do 2 f_equal. apply rotation_nil.
    + pose proof (slot_in_range _ Hne) as Hlt.
      destruct (lookup_lt_is_Some_2 _ _ Hlt) as [u Hu].
      rewrite (GetNextURL_pick w u Hu).
      destruct n as [|n].
      * cbn. unfold slot in Hu. rewrite Hu. eexists. split; [reflexivity|done].
      * assert (wrap64 (currentIndex (balancer w) + 1)
                = (currentIndex (balancer w) + 1)%Z) as Hw.
        { unfold wrap64. apply Z.mod_small. unfold uint64_modulus in *. lia. }
        destruct (IH (with_balancer w
          (mkBalancer (activeUrls (balancer w)) (removedUrls (balancer w))
             (wrap64 (currentIndex (balancer w) + 1)) false)))
          as (w' & Hrun & Ha & Hr).
        { cbn. rewrite Hw. lia. }
        { cbn. rewrite Hw. lia. }
        rewrite Hrun. cbn in *. exists w'. split; [|done].
        unfold slot in Hu. rewrite Hu, Hw. reflexivity.
Qed.

Lemma rotation_hit (urls : list URL) (c : Z) (j : nat) (u : URL) :
  NoDup urls → urls !! j = Some u →
  urls !! Z.to_nat (c mod Z.of_nat (length urls)) = Some u
  ↔ (c mod Z.of_nat (length urls))%Z = Z.of_nat j.
Proof.
  intros Hnd Hj. pose proof (lookup_lt_Some _ _ _ Hj) as Hlt.
  pose proof (Z.mod_pos_bound c (Z.of_nat (length urls)) ltac:(lia)) as Hb.
  split.
  - intros Hc. pose proof (NoDup_lookup _ _ _ _ Hnd Hc Hj). lia.
  - intros ->. by rewrite Nat2Z.id.
Qed.

Lemma times_returned_cons (u : URL) (o : option URL) (picks : list (option URL)) :
  times_returned u (o :: picks)
  = (if decide (o = Some u) then 1 else 0) + times_returned u picks.
Proof.
  unfold times_returned. rewrite filter_cons.
  destruct (decide (o = Some u)); reflexivity.
Qed.

Lemma times_returned_rotation (urls : list URL) (c : Z) (n j : nat) (u : URL) :
  NoDup urls → urls !! j = Some u →
  Z.of_nat (times_returned u (rotation urls c n))
  = (below (Z.of_nat (length urls)) (Z.of_nat j) (c + Z.of_nat n)
     - below (Z.of_nat (length urls)) (Z.of_nat j) c)%Z.
Proof.
  intros Hnd Hj. pose proof (lookup_lt_Some _ _ _ Hj) as Hlt.
  revert c. induction n as [|n IH]; intros c.
  - cbn [rotation]. change (Z.of_nat 0) with 0%Z. rewrite Z.add_0_r.
    unfold times_returned. cbn. lia.
  - cbn [rotation]. rewrite times_returned_cons, Nat2Z.inj_add, IH.
    rewrite (below_step (Z.of_nat (length urls)) (Z.of_nat j) c) by lia.
    replace (c + 1 + Z.of_nat n)%Z with (c + Z.of_nat (S n))%Z by lia.
    destruct (decide (urls !! Z.to_nat (c mod Z.of_nat (length urls)) = Some u))
      as [Hy|Hno];
      destruct (decide ((c mod Z.of_nat (length urls))%Z = Z.of_nat j))
      as [Hy'|Hno']; try lia.
    + apply (rotation_hit urls c j u Hnd Hj) in Hy. done.
    + apply (rotation_hit urls c j u Hnd Hj) in Hy'. done.
Qed.

Lemma slot_shift (r : RoundRobinBalancer) (i : nat) :
  (0 ≤ currentIndex r)%Z → activeUrls r ≠ [] →
  Z.to_nat ((currentIndex r + Z.of_nat i) mod Z.of_nat (length (activeUrls r)))
  = Nat.modulo (slot r + i) (length (activeUrls r)).
Proof.
  intros Hc Hne.
  assert (0 < Z.of_nat (length (activeUrls r)))%Z as HK.
  { destruct (activeUrls r); [done|cbn [length]; lia]. }
  pose proof (Z.mod_pos_bound (currentIndex r) _ HK) as Hb.
  pose proof (Z.mod_pos_bound (currentIndex r + Z.of_nat i) _ HK) as Hb'.
  apply Nat2Z.inj. rewrite Z2Nat.id by lia.
  rewrite Nat2Z.inj_mod, Nat2Z.inj_add. unfold slot.
  rewrite Z2Nat.id by lia. by rewrite Zplus_mod_idemp_l.
Qed.

(** C7, amended. Over [n] consecutive selections on distinct active
    entries, as long as the cursor does not pass [2^64] inside the window,
    the entries are returned in the cyclic order of [activeUrls] and each
    of them between [⌊n/K⌋] and [⌈n/K⌉] times. *)
Theorem fair_rotation_before_wrap (w : World) (n : nat) :
  NoDup (activeUrls (balancer w)) →
  (0 ≤ currentIndex (balancer w))%Z →
  (currentIndex (balancer w) + Z.of_nat n ≤ uint64_modulus)%Z →
  fair_window w n.
Proof.
  intros Hnd Hc Hn. unfold fair_window.
  destruct (select_many_rotation n w Hc Hn) as (w' & Hrun & _).
  eexists _, w'. split; [exact Hrun|]. split.
  - intros i Hi. rewrite rotation_lookup by done. f_equal.
    destruct (decide (activeUrls (balancer w) = [])) as [He|Hne].
    + rewrite He. done.
    + by rewrite slot_shift.
  - intros u Hu. apply list_elem_of_lookup in Hu as [j Hj].
    pose proof (lookup_lt_Some _ _ _ Hj) as Hlt.
    pose proof (times_returned_rotation _ (currentIndex (balancer w)) n j u Hnd Hj)
      as Hcount.
    set (K := length (activeUrls (balancer w))) in *.
    pose proof (div_window (Z.of_nat K)
      (currentIndex (balancer w) - Z.of_nat j + Z.of_nat K - 1) (Z.of_nat n)
      ltac:(lia) ltac:(lia)) as Hwin.
    unfold below in Hcount.
    replace (currentIndex (balancer w) + Z.of_nat n - Z.of_nat j + Z.of_nat K - 1)%Z
      with (currentIndex (balancer w) - Z.of_nat j + Z.of_nat K - 1 + Z.of_nat n)%Z
      in Hcount by lia.
    rewrite <- Hcount in Hwin.
    rewrite <- Nat2Z.inj_div in Hwin.
    replace (Z.of_nat n + Z.of_nat K - 1)%Z with (Z.of_nat (n + K - 1)) in Hwin by lia.
    rewrite <- Nat2Z.inj_div in Hwin. lia.
Qed.

(** The window of six selections on the balancer of [main]: each backend
    twice. *)
Lemma fair_rotation_before_wrap_witness : fair_window serving 6.
Proof.
  apply fair_rotation_before_wrap.
  - cbn. distinct_entries.
  - cbn. lia.
  - cbn. unfold uint64_modulus. lia.
Defined.

(** C7 as stated fails at the wrap of the cursor: with three entries and
    the cursor at [2^64 - 1], two consecutive selections return the first
    entry twice. *)
Lemma fair_window_fails_at_wrap : ¬ fair_window at_wrap 2.
Proof.
  intros (picks & w' & Hrun & _ & Hcount).
  vm_compute in Hrun. injection Hrun as <- <-.
  assert (mkURL 3 "http://localhost:81" ∈ activeUrls (balancer at_wrap)) as Hin
    by (cbn; constructor).
  apply Hcount in Hin. vm_compute in Hin. lia.
Qed.

(** ** The prober, entry by entry *)

Section Prober.

Variable url_Parse : string → option string.
Variable http_Do : nat → string → option Response.

Ltac unfold_probe :=
  unfold restore_entry, legacy_restore_entry, healthy, probe,
    http_Get, http_NewRequestWithContext, DefaultClient_Do, url_Parse_new in *.

Lemma restore_entry_absent (a : nat) (w : World) :
  removedUrls (balancer w) !! a = None → restore_entry url_Parse http_Do a w = Ret () w.
Proof. intros Ha. unfold_probe. run. by rewrite Ha. Qed.

Lemma restore_entry_healthy (a : nat) (s : string) (w : World) :
  removedUrls (balancer w) !! a = Some s → healthy url_Parse http_Do (sent w) s = true →
  ∃ t, url_Parse s = Some t
    ∧ restore_entry url_Parse http_Do a w =
        Ret () (mkWorld
          (mkBalancer (activeUrls (balancer w) ++ [mkURL (brk w) t])
                      (delete a (removedUrls (balancer w)))
                      (currentIndex (balancer w)) (lock (balancer w)))
          (S (brk w)) (S (sent w))
          (trace w ++ [EvRoundTrip s (lock (balancer w))])).
Proof.
  intros Ha Hh. unfold_probe. run. rewrite Ha.
  destruct (url_Parse s) as [t|] eqn:Hp; [|done].
  exists t. split; [done|]. cbn.
  destruct (http_Do (sent w) s) as [resp|]; [|done].
  apply bool_decide_eq_true in Hh. cbn.
  destruct (decide (StatusCode resp = 200%Z)); done.
Qed.

Lemma restore_entry_unhealthy (a : nat) (s : string) (w : World) :
  removedUrls (balancer w) !! a = Some s → healthy url_Parse http_Do (sent w) s = false →
  ∃ w', restore_entry url_Parse http_Do a w = Ret () w'
    ∧ balancer w' = balancer w ∧ brk w' = brk w
    ∧ (trace w' = (trace w ++ [EvRoundTrip s (lock (balancer w))])%list
       ∨ trace w' = (trace w ++ [EvLog "Error creating request"])%list).
Proof.
  intros Ha Hh. unfold_probe. run. rewrite Ha.
  destruct (url_Parse s) as [t|] eqn:Hp; cbn.
  - destruct (http_Do (sent w) s) as [resp|]; cbn.
    + apply bool_decide_eq_false in Hh.
      destruct (decide (StatusCode resp = 200%Z)); [done|].
      eexists. split; [reflexivity|]. cbn. destruct (balancer w); auto.
    + eexists. split; [reflexivity|]. cbn. destruct (balancer w); auto.
  - eexists. split; [reflexivity|]. cbn. destruct (balancer w); auto.
Qed.

Lemma for_each_invariant {A} (P : World → Prop) (body : A → M unit) (xs : list A) :
  (∀ x w, P w → ∃ w', body x w = Ret () w' ∧ P w') →
  ∀ w, P w → ∃ w', for_each xs body w = Ret () w' ∧ P w'.
Proof.
  intros Hbody. induction xs as [|x xs IH]; intros w Hw.
  - exists w. done.
  - destruct (Hbody x w Hw) as (w1 & Hx & Hw1).
    destruct (IH w1 Hw1) as (w2 & Hxs & Hw2).
    exists w2. split; [|done].
    cbn [for_each]. unfold mbind, M_bind. by rewrite Hx.
Qed.

(** Whatever the entry and the answer of the network, an iteration of the
    prober returns and leaves the cursor and the mutex alone. *)
Lemma restore_entry_returns (a : nat) (w : World) :
  ∃ w', restore_entry url_Parse http_Do a w = Ret () w'
    ∧ currentIndex (balancer w') = currentIndex (balancer w)
    ∧ lock (balancer w') = lock (balancer w).
Proof.
  destruct (removedUrls (balancer w) !! a) as [s|] eqn:Ha.
  - destruct (healthy url_Parse http_Do (sent w) s) eqn:Hh.
    + destruct (restore_entry_healthy a s w Ha Hh) as (t & _ & ->).
      eexists. split; [reflexivity|done].
    + destruct (restore_entry_unhealthy a s w Ha Hh) as (w' & -> & Hb & _).
      exists w'. by rewrite Hb.
  - rewrite restore_entry_absent by done. by exists w.
Qed.

Lemma CheckAndRestoreUrls_unfold (order : list nat) (w : World) :
  CheckAndRestoreUrls url_Parse http_Do order w =
    match for_each order (restore_entry url_Parse http_Do)
            (with_balancer w (mkBalancer (activeUrls (balancer w))
               (removedUrls (balancer w)) (currentIndex (balancer w)) true)) with
    | Ret _ w1 =>
        Ret () (with_balancer w1 (mkBalancer (activeUrls (balancer w1))
                  (removedUrls (balancer w1)) (currentIndex (balancer w1)) false))
    | Panic => Panic
    | OutOfFuel => OutOfFuel
    end.
Proof.
  unfold CheckAndRestoreUrls. run.
  destruct (for_each order _ _) as [[] w1| |]; reflexivity.
Qed.

Lemma CheckAndRestoreUrls_cursor (order : list nat) (w : World) :
  ∃ w', CheckAndRestoreUrls url_Parse http_Do order w = Ret () w'
    ∧ currentIndex (balancer w') = currentIndex (balancer w).
Proof.
  rewrite CheckAndRestoreUrls_unfold.
  destruct (for_each_invariant
    (λ w1, currentIndex (balancer w1) = currentIndex (balancer w))
    (restore_entry url_Parse http_Do) order) with
    (w := with_balancer w (mkBalancer (activeUrls (balancer w))
            (removedUrls (balancer w)) (currentIndex (balancer w)) true))
    as (w1 & -> & Hc); [|done|].
  - intros a w0 H0. destruct (restore_entry_returns a w0) as (w' & Hr & Hc & _).
    exists w'. split; [done|congruence].
  - eexists. split; [reflexivity|]. done.
Qed.

(** C8, amended. Along any sequence of calls that does not carry the
    cursor up to [2^64 - 1], every call returns, a selection on a
    non-empty [activeUrls] adds exactly one to the cursor, [RemoveURL] and
    [CheckAndRestoreUrls] leave it unchanged, and it never decreases. *)
Theorem cursor_monotone_before_wrap (calls : list call) (w : World) :
  (0 ≤ currentIndex (balancer w))%Z →
  (currentIndex (balancer w) + Z.of_nat (length calls) < uint64_modulus)%Z →
  cursor_trail url_Parse http_Do calls w.
Proof.
  revert w. induction calls as [|c calls IH]; intros w Hc Hn; [done|].
  cbn [cursor_trail length] in *. destruct c as [|u|order].
  - cbn [perform cursor_after]. unfold mbind, M_bind.
    destruct (decide (activeUrls (balancer w) = [])) as [He|Hne].
    + rewrite (GetNextURL_empty w He). eexists. split; [reflexivity|].
      cbn. repeat split; [lia|]. apply IH; cbn; lia.
    + destruct (GetNextURL_selects w Hne) as (u & w' & -> & _ & Hc' & _).
      assert (wrap64 (currentIndex (balancer w) + 1)
              = (currentIndex (balancer w) + 1)%Z) as Hw.
      { unfold wrap64. apply Z.mod_small. lia. }
      exists w'. split; [reflexivity|]. rewrite Hc', Hw.
      repeat split; [lia|]. apply IH; rewrite Hc', Hw; lia.
  - cbn [perform cursor_after]. rewrite RemoveURL_run.
    eexists. split; [reflexivity|]. cbn.
    repeat split; [lia|]. apply IH; cbn; lia.
  - cbn [perform cursor_after].
    destruct (CheckAndRestoreUrls_cursor order w) as (w' & -> & Hc').
    exists w'. split; [reflexivity|]. rewrite Hc'.
    repeat split; [lia|]. apply IH; rewrite Hc'; lia.
Qed.

End Prober.

Lemma cursor_monotone_before_wrap_witness :
  cursor_trail parse_any mock_server
    [CallNext; CallRemove (mkURL 4 "http://localhost:82"); CallRestore [4]; CallNext]
    serving.
Proof.
  apply cursor_monotone_before_wrap.
  - cbn. lia.
  - cbn. unfold uint64_modulus. lia.
Defined.

(** The world [at_wrap] is what [2^64 - 1] selections make of the balancer
    of [main]. *)
Lemma selections_reach_the_wrap :
  N.iter (2 ^ 64 - 1) after_selection serving = at_wrap.
Proof.
  assert (∀ n : N, N.iter n after_selection serving =
    mkWorld (mkBalancer (activeUrls (balancer serving)) ∅
               (wrap64 (Z.of_N n)) false) 6 0 []) as Hiter.
  { induction n as [|n IH] using N.peano_ind; [reflexivity|].
    rewrite N.iter_succ, IH. unfold after_selection.
    set (w := mkWorld _ _ _ _).
    assert (activeUrls (balancer w) ≠ []) as Hne by done.
    destruct (lookup_lt_is_Some_2 _ _ (slot_in_range _ Hne)) as [u Hu].
    rewrite (GetNextURL_pick w u Hu). unfold with_balancer. cbn.
    do 2 f_equal. unfold wrap64.
    rewrite Zplus_mod_idemp_l. f_equal. lia. }
  rewrite Hiter. reflexivity.
Qed.

(** C8 as stated fails when the cursor wraps: the selection made at
    [2^64 - 1] stores 0. *)
Lemma cursor_resets_at_wrap : ¬ cursor_trail parse_any unreachable [CallNext] at_wrap.
Proof.
  intros (w' & Hrun & Hafter & Hle & _).
  vm_compute in Hrun. injection Hrun as <-.
  vm_compute in Hle. apply Hle. reflexivity.
Qed.

(** ** Removal *)

Lemma excise_absent (s : string) (urls : list URL) :
  s ∉ texts urls → excise s urls = urls.
Proof.
  induction urls as [|u urls IH]; intros Hs; [done|].
  cbn in *. apply not_elem_of_cons in Hs as [Hne Hs].
  destruct (decide (URL_String u = s)); [congruence|].
  by rewrite IH.
Qed.

Lemma elem_of_removed_texts (s : string) (r : RoundRobinBalancer) :
  s ∈ removed_texts r ↔ ∃ a, removedUrls r !! a = Some s.
Proof.
  unfold removed_texts. rewrite list_elem_of_fmap. split.
  - intros ([a s'] & -> & Hin). exists a. by apply elem_of_map_to_list.
  - intros (a & Ha). exists (a, s). split; [done|]. by apply elem_of_map_to_list.
Qed.

(** C3, amended. When no active entry has the text of its argument,
    [RemoveURL] (in [loadbalance.go] and in [main.go]) leaves [activeUrls]
    unchanged and records the argument in [removedUrls]; the removed set is
    unchanged exactly when that pointer is already one of its keys.  An
    iteration of the prober on a key that is not in [removedUrls] changes
    nothing. *)
Theorem RemoveURL_without_match (url_Parse : string → option string)
    (http_Do : nat → string → option Response) (u : URL) (w : World) :
  URL_String u ∉ texts (activeUrls (balancer w)) →
  (∃ w', RemoveURL u w = Ret () w'
     ∧ main_RemoveURL u w = Ret () w'
     ∧ activeUrls (balancer w') = activeUrls (balancer w)
     ∧ removedUrls (balancer w')
       = <[addr u := URL_String u]> (removedUrls (balancer w))
     ∧ (removedUrls (balancer w') = removedUrls (balancer w)
        ↔ removedUrls (balancer w) !! addr u = Some (URL_String u)))
  ∧ (∀ a, removedUrls (balancer w) !! a = None →
       restore_entry url_Parse http_Do a w = Ret () w).
Proof.
  intros Hs. split.
  - eexists. split; [apply RemoveURL_run|]. split; [apply main_RemoveURL_run|].
    cbn. split; [by apply excise_absent|]. split; [done|]. split.
    + intros He. rewrite <- He. apply lookup_insert_eq.
    + apply insert_id.
  - intros a Ha. by apply restore_entry_absent.
Qed.

Lemma RemoveURL_without_match_witness :
  ∃ w', RemoveURL (mkURL 9 "http://localhost:84") serving = Ret () w'
    ∧ activeUrls (balancer w') = activeUrls (balancer serving)
    ∧ removedUrls (balancer w') = {[ 9 := "http://localhost:84" ]}.
Proof.
  destruct (RemoveURL_without_match parse_any unreachable
              (mkURL 9 "http://localhost:84") serving)
    as [(w' & Hrun & _ & Ha & Hr & _) _].
  - cbn. rewrite !elem_of_cons, elem_of_nil. intuition congruence.
  - exists w'. split; [done|]. split; [done|]. rewrite Hr. reflexivity.
Defined.

(** C3 as stated fails: removing an endpoint that was never in the
    registry puts it into the removed set. *)
Lemma remove_of_stranger_is_recorded :
  ¬ (URL_String (mkURL 9 "http://localhost:84")
       ∉ texts (activeUrls (balancer serving))
     → remove_is_noop (mkURL 9 "http://localhost:84") serving).
Proof.
  intros H. destruct H as (w' & Hrun & _ & Hsame).
  - cbn. rewrite !elem_of_cons, elem_of_nil. intuition congruence.
  - rewrite RemoveURL_run in Hrun. injection Hrun as <-.
    specialize (Hsame "http://localhost:84"). rewrite !elem_of_removed_texts in Hsame.
    destruct Hsame as [Hto _]. destruct Hto as [a Ha].
    + exists 9. cbn. apply lookup_insert_eq.
    + cbn in Ha. by rewrite lookup_empty in Ha.
Qed.

(** ** The invariant of the registry *)

Section Invariant.

Variable url_Parse : string → option string.
Variable http_Do : nat → string → option Response.

Lemma sound_invariant (r : RoundRobinBalancer) :
  registry_sound url_Parse (activeUrls r) (removedUrls r) → registry_invariant r.
Proof.
  intros (Hnd & Hdis & _). split; [done|].
  intros s Hs Hr. apply elem_of_removed_texts in Hr as [a Ha].
  by apply (Hdis a s).
Qed.

Lemma excise_sublist (s : string) (urls : list URL) :
  texts (excise s urls) `sublist_of` texts urls.
Proof.
  induction urls as [|u urls IH]; [done|]. cbn.
  destruct (decide (URL_String u = s)).
  - by apply sublist_cons.
  - cbn. by apply sublist_skip.
Qed.

Lemma excise_cuts (s : string) (urls : list URL) :
  NoDup (texts urls) → s ∉ texts (excise s urls).
Proof.
  induction urls as [|u urls IH]; intros Hnd; cbn; [apply not_elem_of_nil|].
  cbn in Hnd. apply NoDup_cons in Hnd as [Hu Hnd].
  destruct (decide (URL_String u = s)) as [<-|Hne]; [done|].
  cbn. apply not_elem_of_cons. split; [done|]. by apply IH.
Qed.

Lemma excise_shortens (s : string) (urls : list URL) :
  s ∈ texts urls → S (length (excise s urls)) = length urls.
Proof.
  induction urls as [|u urls IH]; cbn; [by intros ?%elem_of_nil|].
  intros Hin. destruct (decide (URL_String u = s)) as [|Hne]; [done|].
  apply elem_of_cons in Hin as [|Hin]; [congruence|].
  cbn. by rewrite IH.
Qed.

Lemma sound_remove (u : URL) (urls : list URL) (m : gmap nat string) :
  registry_sound url_Parse urls m → URL_String u ∈ texts urls →
  registry_sound url_Parse (excise (URL_String u) urls)
    (<[addr u := URL_String u]> m).
Proof.
  intros (Hnd & Hdis & Hinj & Hpa & Hpr) Hu.
  pose proof (excise_sublist (URL_String u) urls) as Hsub.
  repeat split.
  - by eapply sublist_NoDup.
  - intros a s Ha Hs. apply lookup_insert_Some in Ha as [[<- <-]|[Hne Ha]].
    + by apply (excise_cuts (URL_String u) urls).
    + apply (Hdis a s Ha). by eapply elem_of_sublist.
  - intros a b s Ha Hb.
    apply lookup_insert_Some in Ha as [[<- <-]|[Hna Ha]];
      apply lookup_insert_Some in Hb as [[Hb1 Hb2]|[Hnb Hb]]; try done.
    + by destruct (Hdis b _ Hb).
    + subst. by destruct (Hdis a _ Ha).
    + by eapply Hinj.
  - intros s Hs. apply Hpa. by eapply elem_of_sublist.
  - intros a s Ha. apply lookup_insert_Some in Ha as [[<- <-]|[Hne Ha]].
    + by apply Hpa.
    + by eapply Hpr.
Qed.

Lemma sound_restore (a : nat) (s : string) (p : nat) (urls : list URL)
    (m : gmap nat string) :
  registry_sound url_Parse urls m → m !! a = Some s →
  registry_sound url_Parse (urls ++ [mkURL p s]) (delete a m).
Proof.
  intros (Hnd & Hdis & Hinj & Hpa & Hpr) Ha.
  unfold registry_sound, texts in *. repeat split.
  - rewrite fmap_app. apply NoDup_app. split; [done|]. split.
    + intros x Hx Hs. cbn in Hs. apply list_elem_of_singleton in Hs as ->.
      by apply (Hdis a s).
    + cbn. apply NoDup_singleton.
  - intros b s' Hb Hs. apply lookup_delete_Some in Hb as [Hne Hb].
    rewrite fmap_app in Hs. apply elem_of_app in Hs as [Hs|Hs].
    + by apply (Hdis b s').
    + cbn in Hs. apply list_elem_of_singleton in Hs as ->.
      apply Hne. by eapply Hinj.
  - intros b c s' Hb Hc. apply lookup_delete_Some in Hb as [_ Hb].
    apply lookup_delete_Some in Hc as [_ Hc]. by eapply Hinj.
  - intros s' Hs. rewrite fmap_app in Hs. apply elem_of_app in Hs as [Hs|Hs].
    + by apply Hpa.
    + cbn in Hs. apply list_elem_of_singleton in Hs as ->. by eapply Hpr.
  - intros b s' Hb. apply lookup_delete_Some in Hb as [_ Hb]. by eapply Hpr.
Qed.

Lemma sound_restore_entry (a : nat) (w : World) :
  registry_sound url_Parse (activeUrls (balancer w)) (removedUrls (balancer w)) →
  ∃ w', restore_entry url_Parse http_Do a w = Ret () w'
    ∧ registry_sound url_Parse (activeUrls (balancer w')) (removedUrls (balancer w')).
Proof.
  intros Hs. destruct (removedUrls (balancer w) !! a) as [s|] eqn:Ha.
  - destruct (healthy url_Parse http_Do (sent w) s) eqn:Hh.
    + destruct (restore_entry_healthy url_Parse http_Do a s w Ha Hh) as (t & Ht & ->).
      eexists. split; [reflexivity|]. cbn.
      destruct Hs as (Hnd & Hdis & Hinj & Hpa & Hpr).
      rewrite (Hpr a s Ha) in Ht. injection Ht as <-.
      by apply sound_restore.
    + destruct (restore_entry_unhealthy url_Parse http_Do a s w Ha Hh)
        as (w' & -> & Hb & _).
      exists w'. by rewrite Hb.
  - rewrite restore_entry_absent by done. by exists w.
Qed.

Lemma sound_CheckAndRestoreUrls (order : list nat) (w : World) :
  registry_sound url_Parse (activeUrls (balancer w)) (removedUrls (balancer w)) →
  ∃ w', CheckAndRestoreUrls url_Parse http_Do order w = Ret () w'
    ∧ registry_sound url_Parse (activeUrls (balancer w')) (removedUrls (balancer w')).
Proof.
  intros Hs. rewrite CheckAndRestoreUrls_unfold.
  destruct (for_each_invariant
    (λ w1, registry_sound url_Parse (activeUrls (balancer w1)) (removedUrls (balancer w1)))
    (restore_entry url_Parse http_Do) order (λ a w0, sound_restore_entry a w0))
    with (w := with_balancer w (mkBalancer (activeUrls (balancer w))
            (removedUrls (balancer w)) (currentIndex (balancer w)) true))
    as (w1 & -> & Hs1); [done|].
  eexists. split; [reflexivity|]. done.
Qed.

Lemma sound_perform (c : call) (w : World) :
  registry_sound url_Parse (activeUrls (balancer w)) (removedUrls (balancer w)) →
  match c with
  | CallRemove u => URL_String u ∈ texts (activeUrls (balancer w))
  | _ => True
  end →
  ∃ w', perform url_Parse http_Do c w = Ret () w'
    ∧ registry_sound url_Parse (activeUrls (balancer w')) (removedUrls (balancer w')).
Proof.
  intros Hs Hc. destruct c as [|u|order]; cbn [perform].
  - unfold mbind, M_bind.
    destruct (decide (activeUrls (balancer w) = [])) as [He|Hne].
    + rewrite (GetNextURL_empty w He). eexists. split; [reflexivity|].
      cbn. by rewrite <- He.
    + destruct (GetNextURL_selects w Hne) as (u & w' & -> & _ & _ & Ha & Hr).
      exists w'. split; [reflexivity|]. by rewrite Ha, Hr.
  - rewrite RemoveURL_run. eexists. split; [reflexivity|]. cbn.
    by apply sound_remove.
  - by apply sound_CheckAndRestoreUrls.
Qed.

Lemma parse_backends_texts (backendUrls : list URL) (w : World) :
  ∃ urls w', parse_backends url_Parse backendUrls w = Ret urls w'
    ∧ texts urls = omap url_Parse (texts backendUrls).
Proof.
  revert w. induction backendUrls as [|b bs IH]; intros w.
  - eexists _, _. split; [reflexivity|done].
  - cbn [parse_backends]. unfold url_Parse_new, mbind, M_bind. cbn.
    destruct (url_Parse (URL_String b)) as [t|] eqn:Hp.
    + destruct (IH (mkWorld (balancer w) (S (brk w)) (sent w) (trace w)))
        as (urls & w' & -> & Ht).
      eexists _, _. split; [reflexivity|].
      unfold texts in *. cbn. rewrite ?Hp. cbn. by rewrite Ht.
    + cbn. unfold log_Println, emit.
      destruct (IH (mkWorld (balancer w) (brk w) (sent w)
                      (trace w ++ [EvLog ("Invalid URL " ++ URL_String b)])))
        as (urls & w' & Hrun & Ht).
      rewrite Hrun. eexists _, _. split; [reflexivity|].
      unfold texts in *. cbn. by rewrite ?Hp.
Qed.

Lemma sound_install (backendUrls : list URL) (w0 : World) :
  parse_stable url_Parse →
  NoDup (omap url_Parse (texts backendUrls)) →
  ∃ w, install url_Parse backendUrls w0 = Ret () w
    ∧ registry_sound url_Parse (activeUrls (balancer w)) (removedUrls (balancer w)).
Proof.
  intros Hst Hnd. unfold install, NewRoundRobinBalancer, mbind, M_bind.
  destruct (parse_backends_texts backendUrls w0) as (urls & w' & -> & Ht).
  eexists. split; [reflexivity|]. cbn. repeat split.
  - by rewrite Ht.
  - intros a s Ha. by rewrite lookup_empty in Ha.
  - intros a b s Ha. by rewrite lookup_empty in Ha.
  - intros s Hs. rewrite Ht in Hs. apply list_elem_of_omap in Hs as (s0 & _ & Hp).
    by eapply Hst.
  - intros a s Ha. by rewrite lookup_empty in Ha.
Qed.

Lemma sound_trail (calls : list call) (w : World) :
  registry_sound url_Parse (activeUrls (balancer w)) (removedUrls (balancer w)) →
  removals_hit url_Parse http_Do calls w →
  invariant_trail url_Parse http_Do calls w.
Proof.
  revert w. induction calls as [|c calls IH]; intros w Hs Hhit.
  - split; [by apply sound_invariant|done].
  - destruct Hhit as [Hc Hrest].
    destruct (sound_perform c w Hs Hc) as (w' & Hrun & Hs').
    split; [by apply sound_invariant|].
    exists w'. split; [done|]. apply IH; [done|]. by apply Hrest.
Qed.

(** C2, amended. A registry built from endpoints whose parsed texts are
    pairwise distinct, with [url.Parse] giving back the texts it produced,
    keeps [activeUrls] free of equal texts and disjoint from [removedUrls]
    at every point of every sequence of calls in which each [RemoveURL] is
    handed a URL whose text is active at that moment; every call returns. *)
Theorem invariant_when_removals_hit (backendUrls : list URL)
    (calls : list call) (w0 : World) :
  parse_stable url_Parse →
  NoDup (omap url_Parse (texts backendUrls)) →
  ∃ w, install url_Parse backendUrls w0 = Ret () w
    ∧ (removals_hit url_Parse http_Do calls w →
       invariant_trail url_Parse http_Do calls w).
Proof.
  intros Hst Hnd.
  destruct (sound_install backendUrls w0 Hst Hnd) as (w & Hrun & Hs).
  exists w. split; [done|]. by apply sound_trail.
Qed.

End Invariant.

Ltac step_call H :=
  vm_compute in H; injection H as <-.

Lemma invariant_when_removals_hit_witness :
  invariant_trail parse_any mock_server
    [CallRemove (mkURL 4 "http://localhost:82"); CallNext; CallRestore [4];
     CallRemove (mkURL 3 "http://localhost:81")]
    serving.
Proof.
  destruct (invariant_when_removals_hit parse_any mock_server backends
    [CallRemove (mkURL 4 "http://localhost:82"); CallNext; CallRestore [4];
     CallRemove (mkURL 3 "http://localhost:81")] boot) as (w & Hrun & Htrail).
  - intros s t [= <-]. reflexivity.
  - cbn. distinct_entries.
  - rewrite install_backends in Hrun. injection Hrun as <-.
    apply Htrail.
    split; [cbn; rewrite !elem_of_cons; tauto|]. intros w1 H1. step_call H1.
    split; [done|]. intros w2 H2. step_call H2.
    split; [done|]. intros w3 H3. step_call H3.
    split; [cbn; rewrite !elem_of_cons; tauto|]. intros w4 H4. done.
Defined.

(** [NewRoundRobinBalancer] keeps what it is given: a backend listed twice
    is active twice. *)
Lemma duplicate_backends_stay_duplicate :
  ∃ w, install parse_any [mkURL 0 "http://localhost:81"; mkURL 1 "http://localhost:81"]
         boot = Ret () w
    ∧ ¬ registry_invariant (balancer w).
Proof.
  eexists. split; [vm_compute; reflexivity|].
  intros [Hnd _]. cbn in Hnd. apply NoDup_cons in Hnd as [Hnot _].
  apply Hnot. constructor.
Qed.

(** C2 as stated fails. On the registry built from the three distinct
    backends of [main], removing one endpoint twice, through two URLs
    parsed from the same text, and probing with success leaves two active
    entries with that text. *)
Lemma double_removal_duplicates_entry :
  ¬ (∀ w, install parse_any backends boot = Ret () w →
       invariant_trail parse_any mock_server
         [CallRemove (mkURL 10 "http://localhost:82");
          CallRemove (mkURL 11 "http://localhost:82");
          CallRestore [10; 11]] w).
Proof.
  intros H. specialize (H serving install_backends).
  destruct H as (_ & w1 & H1 & _ & w2 & H2 & _ & w3 & H3 & (Hnd & _) & _).
  step_call H1. step_call H2. step_call H3.
  cbn in Hnd. apply NoDup_cons in Hnd as [_ Hnd].
  apply NoDup_cons in Hnd as [_ Hnd]. apply NoDup_cons in Hnd as [Hnot _].
  apply Hnot. constructor.
Qed.

(** ** The policy of the prober *)

Section Policy.

Variable url_Parse : string → option string.
Variable http_Do : nat → string → option Response.

(** In [loadbalance.go] and in the first program of [main.go], an entry
    leaves [removedUrls] exactly when its probe completes with status
    200. *)
Lemma restore_entry_reinstates_iff (a : nat) (s : string) (w : World) :
  removedUrls (balancer w) !! a = Some s →
  ∃ w', restore_entry url_Parse http_Do a w = Ret () w'
    ∧ (removedUrls (balancer w') !! a = None
       ↔ ∃ resp, probe url_Parse http_Do (sent w) s = Some resp
                 ∧ StatusCode resp = 200%Z)
    ∧ (removedUrls (balancer w') !! a = None
       → ∃ p, activeUrls (balancer w') = (activeUrls (balancer w) ++ [p])%list)
    ∧ (removedUrls (balancer w') !! a ≠ None → balancer w' = balancer w).
Proof.
  intros Ha.
  assert (healthy url_Parse http_Do (sent w) s = true
          ↔ ∃ resp, probe url_Parse http_Do (sent w) s = Some resp
                    ∧ StatusCode resp = 200%Z) as Hiff.
  { unfold healthy. destruct (probe _ _ _ _) as [resp|].
    - rewrite bool_decide_eq_true. split; [eauto|]. by intros (? & [= <-] & ?).
    - split; [done|]. by intros (? & ? & ?). }
  destruct (healthy url_Parse http_Do (sent w) s) eqn:Hh.
  - destruct (restore_entry_healthy url_Parse http_Do a s w Ha Hh) as (t & Ht & ->).
    eexists. split; [reflexivity|]. cbn. rewrite lookup_delete_eq.
    split; [by rewrite <- Hiff|]. split; [eauto|done].
  - destruct (restore_entry_unhealthy url_Parse http_Do a s w Ha Hh)
      as (w' & -> & Hb & _).
    exists w'. split; [reflexivity|]. rewrite Hb, Ha.
    split; [|done]. rewrite <- Hiff. done.
Qed.

(** In the second program of [main.go], an entry leaves [removedUrls]
    as soon as its probe completes, whatever the status. *)
Lemma legacy_restore_entry_reinstates_iff (a : nat) (s : string) (w : World) :
  removedUrls (balancer w) !! a = Some s →
  ∃ w', legacy_restore_entry url_Parse http_Do a w = Ret () w'
    ∧ (removedUrls (balancer w') !! a = None
       ↔ ∃ resp, probe url_Parse http_Do (sent w) s = Some resp).
Proof.
  intros Ha. unfold legacy_restore_entry, probe, http_Get,
    http_NewRequestWithContext, DefaultClient_Do, url_Parse_new.
  run. rewrite Ha.
  destruct (url_Parse s) as [t|]; cbn.
  - destruct (http_Do (sent w) s) as [resp|]; cbn.
    + eexists. split; [reflexivity|]. cbn. rewrite lookup_delete_eq.
      split; [eauto|done].
    + eexists. split; [reflexivity|]. cbn. rewrite Ha. split; [done|]. by intros [? ?].
  - eexists. split; [reflexivity|]. cbn. rewrite Ha. split; [done|]. by intros [? ?].
Qed.

End Policy.

(** C5. With [http://localhost:82] removed and answering 503, the prober
    of [loadbalance.go] keeps it removed, and the prober of the second
    program of [main.go] puts it back into [activeUrls]. *)
Theorem legacy_prober_reinstates_on_503 :
  (∃ w', CheckAndRestoreUrls parse_any (answering 503) [4] degraded = Ret () w'
     ∧ removedUrls (balancer w') !! 4 = Some "http://localhost:82"
     ∧ activeUrls (balancer w') = activeUrls (balancer degraded))
  ∧ (∃ w', main_CheckAndRestoreUrls parse_any (answering 503) [4] degraded = Ret () w'
     ∧ removedUrls (balancer w') !! 4 = Some "http://localhost:82"
     ∧ activeUrls (balancer w') = activeUrls (balancer degraded))
  ∧ (∃ w', legacy_CheckAndRestoreUrls parse_any (answering 503) [4] degraded = Ret () w'
     ∧ removedUrls (balancer w') !! 4 = None
     ∧ activeUrls (balancer w')
       = (activeUrls (balancer degraded) ++ [mkURL 6 "http://localhost:82"])%list).
Proof.
  repeat split; eexists; (split; [vm_compute; reflexivity|]); split; reflexivity.
Qed.

(** ** The dispatch loop *)

Section Dispatch.

Variable url_Parse : string → option string.
Variable http_Do : nat → string → option Response.

Lemma SendRequest_no_servers (fuel : nat) (w : World) :
  activeUrls (balancer w) = [] →
  SendRequest url_Parse http_Do (S fuel) w =
    log_Println "No active servers available"
      (with_balancer w
         (mkBalancer [] (removedUrls (balancer w)) (currentIndex (balancer w)) false)).
Proof.
  intros He. cbn [SendRequest]. unfold mbind, M_bind.
  by rewrite (GetNextURL_empty w He).
Qed.

Lemma SendRequest_step (fuel : nat) (w : World) (u : URL) :
  activeUrls (balancer w) !! slot (balancer w) = Some u →
  SendRequest url_Parse http_Do (S fuel) w =
    match url_Parse (URL_String u) with
    | None => log_Println "Error creating request" (selected w)
    | Some _ =>
        match http_Do (sent w) (URL_String u) with
        | None =>
            (RemoveURL u;; SendRequest url_Parse http_Do fuel)
              (answered (URL_String u) (selected w))
        | Some resp =>
            if decide (StatusCode resp = 200%Z) then
              match Body resp with
              | None => log_Println "Error reading response"
              | Some body => log_Println ("Response from server: " ++ body)
              end (answered (URL_String u) (selected w))
            else SendRequest url_Parse http_Do fuel
                   (answered (URL_String u) (selected w))
        end
    end.
Proof.
  intros Hu. cbn [SendRequest]. unfold mbind, M_bind.
  rewrite (GetNextURL_pick w u Hu).
  unfold http_NewRequestWithContext, DefaultClient_Do.
  destruct (url_Parse (URL_String u)); [|reflexivity].
  cbn. destruct (http_Do (sent w) (URL_String u)) as [resp|]; [|reflexivity].
  destruct (decide (StatusCode resp = 200%Z)); reflexivity.
Qed.


Lemma main_sendRequest_step (fuel : nat) (w : World) (u : URL) :
  activeUrls (balancer w) !! main_slot (balancer w) = Some u →
  main_sendRequest url_Parse http_Do (S fuel) w =
    match url_Parse (URL_String u) with
    | None => log_Println "Error creating request" (selected w)
    | Some _ =>
        match http_Do (sent w) (URL_String u) with
        | None =>
            (main_RemoveURL u;; main_sendRequest url_Parse http_Do fuel)
              (answered (URL_String u) (selected w))
        | Some resp =>
            if decide (StatusCode resp = 200%Z) then
              match Body resp with
              | None => log_Println "Error reading response"
              | Some body => log_Println ("Response from server: " ++ body)
              end (answered (URL_String u) (selected w))
            else main_sendRequest url_Parse http_Do fuel
                   (answered (URL_String u) (selected w))
        end
    end.
Proof.
  intros Hu. cbn [main_sendRequest]. unfold mbind, M_bind.
  rewrite (main_GetNextURL_pick w u Hu).
  unfold http_NewRequestWithContext, DefaultClient_Do.
  destruct (url_Parse (URL_String u)); [|reflexivity].
  cbn. destruct (http_Do (sent w) (URL_String u)) as [resp|]; [|reflexivity].
  destruct (decide (StatusCode resp = 200%Z)); reflexivity.
Qed.

Lemma legacy_sendRequest_step (w : World) (u : URL) :
  activeUrls (balancer w) !! main_slot (balancer w) = Some u →
  legacy_sendRequest url_Parse http_Do w =
    match url_Parse (URL_String u) with
    | None =>
        (log_Println ("Error making request to " ++ URL_String u);;
         legacy_RemoveURL u) (selected w)
    | Some _ =>
        match http_Do (sent w) (URL_String u) with
        | None =>
            (log_Println ("Error making request to " ++ URL_String u);;
             legacy_RemoveURL u) (answered (URL_String u) (selected w))
        | Some resp =>
            if decide (StatusCode resp ≠ 200%Z) then
              log_Println ("Server " ++ URL_String u
                           ++ " responded with non-200 status")
                (answered (URL_String u) (selected w))
            else
              match Body resp with
              | None => log_Println ("Error reading response from " ++ URL_String u)
              | Some body =>
                  log_Println ("Response from server " ++ URL_String u ++ ": " ++ body)
              end (answered (URL_String u) (selected w))
        end
    end.
Proof.
  intros Hu. unfold legacy_sendRequest, legacy_GetNextURL, mbind, M_bind.
  rewrite (main_GetNextURL_pick w u Hu).
  unfold http_Get, http_NewRequestWithContext, DefaultClient_Do.
  destruct (url_Parse (URL_String u)); [|reflexivity].
  cbn. destruct (http_Do (sent w) (URL_String u)) as [resp|]; [|reflexivity].
  destruct (decide (StatusCode resp ≠ 200%Z)); reflexivity.
Qed.

Lemma probe_Some (k : nat) (s : string) (resp : Response) :
  probe url_Parse http_Do k s = Some resp →
  (∃ t, url_Parse s = Some t) ∧ http_Do k s = Some resp.
Proof. unfold probe. destruct (url_Parse s); [eauto|done]. Qed.

(** C1, amended. When the selected endpoint answers with a status other
    than 200, no copy calls [RemoveURL]: the endpoint stays active and
    [removedUrls] is as it was.  The loop of [SendRequest] in
    [loadbalance.go], and that of [sendRequest] in the first program of
    [main.go], then goes round again: the rest of the call is a new
    iteration, with one request sent and the cursor one further, and it
    has an endpoint to select.  The single-attempt [sendRequest] of the
    second program of [main.go] stops.  Each copy is taken by itself, with
    the endpoint its own [GetNextURL] selects. *)
Theorem non200_keeps_endpoint_and_loop_goes_on (w : World) :
  (∀ fuel u resp,
     activeUrls (balancer w) !! slot (balancer w) = Some u →
     probe url_Parse http_Do (sent w) (URL_String u) = Some resp →
     StatusCode resp ≠ 200%Z →
     ∃ w1 u1, SendRequest url_Parse http_Do (S fuel) w
              = SendRequest url_Parse http_Do fuel w1
       ∧ sent w1 = S (sent w)
       ∧ activeUrls (balancer w1) = activeUrls (balancer w)
       ∧ removedUrls (balancer w1) = removedUrls (balancer w)
       ∧ currentIndex (balancer w1) = wrap64 (currentIndex (balancer w) + 1)
       ∧ activeUrls (balancer w1) !! slot (balancer w1) = Some u1)
  ∧ (∀ fuel u resp,
       activeUrls (balancer w) !! main_slot (balancer w) = Some u →
       probe url_Parse http_Do (sent w) (URL_String u) = Some resp →
       StatusCode resp ≠ 200%Z →
       ∃ w1 u1, main_sendRequest url_Parse http_Do (S fuel) w
                = main_sendRequest url_Parse http_Do fuel w1
         ∧ sent w1 = S (sent w)
         ∧ activeUrls (balancer w1) = activeUrls (balancer w)
         ∧ removedUrls (balancer w1) = removedUrls (balancer w)
         ∧ currentIndex (balancer w1) = wrap64 (currentIndex (balancer w) + 1)
         ∧ activeUrls (balancer w1) !! main_slot (balancer w1) = Some u1)
  ∧ (∀ u resp,
       activeUrls (balancer w) !! main_slot (balancer w) = Some u →
       probe url_Parse http_Do (sent w) (URL_String u) = Some resp →
       StatusCode resp ≠ 200%Z →
       stops_after_one_round_trip (legacy_sendRequest url_Parse http_Do) w).
Proof.
  split; [|split].
  - intros fuel u resp Hu Hp Hs. apply probe_Some in Hp as [[t Ht] Hd].
    set (w1 := answered (URL_String u) (selected w)).
    assert (activeUrls (balancer w1) ≠ []) as Hne.
    { cbn. intros He. by rewrite He in Hu. }
    destruct (lookup_lt_is_Some_2 _ _ (slot_in_range _ Hne)) as [u1 Hu1].
    exists w1, u1.
    rewrite (SendRequest_step fuel w u Hu), Ht, Hd.
    destruct (decide (StatusCode resp = 200%Z)); done.
  - intros fuel u resp Hu Hp Hs. apply probe_Some in Hp as [[t Ht] Hd].
    set (w1 := answered (URL_String u) (selected w)).
    assert (activeUrls (balancer w1) ≠ []) as Hne.
    { cbn. intros He. by rewrite He in Hu. }
    destruct (lookup_lt_is_Some_2 _ _ (main_slot_in_range _ Hne)) as [u1 Hu1].
    exists w1, u1.
    rewrite (main_sendRequest_step fuel w u Hu), Ht, Hd.
    destruct (decide (StatusCode resp = 200%Z)); done.
  - intros u resp Hu Hp Hs. apply probe_Some in Hp as [[t Ht] Hd].
    unfold stops_after_one_round_trip.
    rewrite (legacy_sendRequest_step w u Hu), Ht, Hd.
    destruct (decide (StatusCode resp ≠ 200%Z)); [|done].
    eexists. split; [reflexivity|]. done.
Qed.






End Dispatch.

Lemma non200_keeps_endpoint_and_loop_goes_on_witness :
  (∃ w1 w',
     SendRequest parse_any (refusing "http://localhost:81") 2 serving
     = SendRequest parse_any (refusing "http://localhost:81") 1 w1
     ∧ activeUrls (balancer w1) = activeUrls (balancer serving)
     ∧ removedUrls (balancer w1) = ∅
     ∧ SendRequest parse_any (refusing "http://localhost:81") 1 w1 = Ret () w'
     ∧ sent w' = 2)
  ∧ (∃ w1,
       main_sendRequest parse_any (refusing "http://localhost:82") 2 serving
       = main_sendRequest parse_any (refusing "http://localhost:82") 1 w1
       ∧ activeUrls (balancer w1) = activeUrls (balancer serving)
       ∧ removedUrls (balancer w1) = ∅)
  ∧ stops_after_one_round_trip
      (legacy_sendRequest parse_any (refusing "http://localhost:82")) serving.
Proof.
  split; [|split].
  - destruct (proj1 (non200_keeps_endpoint_and_loop_goes_on parse_any
                       (refusing "http://localhost:81") serving)
                1 (mkURL 3 "http://localhost:81")
                (mkResponse 404 (Some "not found")))
      as (w1 & u1 & Hrun & Hsent & Ha & Hr & Hc & Hu1); [done..|].
    exists w1. eexists. split; [exact Hrun|]. split; [exact Ha|].
    split; [exact Hr|]. rewrite <- Hrun. vm_compute. split; reflexivity.
  - destruct (proj1 (proj2 (non200_keeps_endpoint_and_loop_goes_on parse_any
                       (refusing "http://localhost:82") serving))
                1 (mkURL 4 "http://localhost:82")
                (mkResponse 404 (Some "not found")))
      as (w1 & u1 & Hrun & Hsent & Ha & Hr & _); [done..|].
    exists w1. done.
  - apply (proj2 (proj2 (non200_keeps_endpoint_and_loop_goes_on parse_any
                       (refusing "http://localhost:82") serving))
             (mkURL 4 "http://localhost:82")
             (mkResponse 404 (Some "not found"))); done.
Defined.

(** C1 as stated fails for [SendRequest]: the first endpoint answers 404,
    and the call sends a second request, to the next endpoint. *)
Lemma SendRequest_sends_again_after_404 :
  ¬ (probe parse_any flaky (sent serving) "http://localhost:81"
       = Some (mkResponse 404 (Some "not found"))
     → ∃ fuel, stops_after_one_round_trip (SendRequest parse_any flaky fuel) serving).
Proof.
  intros H. destruct H as (fuel & w' & Hrun & Hsent & _); [reflexivity|].
  destruct fuel as [|[|fuel]].
  - done.
  - vm_compute in Hrun. done.
  - vm_compute in Hrun. injection Hrun as <-. done.
Qed.




(** ** Critical sections *)

Section Critical.

Variable url_Parse : string → option string.
Variable http_Do : nat → string → option Response.

Lemma outside_lock_nil : outside_lock [].
Proof. intros target held Hin. by apply elem_of_nil in Hin. Qed.

Lemma outside_lock_log (line : string) : outside_lock [EvLog line].
Proof. intros target held Hin. by apply list_elem_of_singleton in Hin. Qed.

Lemma outside_lock_cons (target : string) (evs : list event) :
  outside_lock evs → outside_lock (EvRoundTrip target false :: evs).
Proof.
  intros He t h Hin. apply elem_of_cons in Hin as [[= _ ->]|Hin]; [done|].
  by eapply He.
Qed.

(** The round trips of the dispatcher are made after [GetNextURL] and
    [RemoveURL] have released the mutex. *)
Lemma SendRequest_outside_lock (fuel : nat) (w w' : World) :
  SendRequest url_Parse http_Do fuel w = Ret () w' →
  ∃ evs, trace w' = (trace w ++ evs)%list ∧ outside_lock evs.
Proof.
  revert w. induction fuel as [|fuel IH]; intros w Hrun; [done|].
  destruct (decide (activeUrls (balancer w) = [])) as [He|Hne].
  - rewrite SendRequest_no_servers in Hrun by done. injection Hrun as <-.
    eexists. split; [reflexivity|]. apply outside_lock_log.
  - destruct (lookup_lt_is_Some_2 _ _ (slot_in_range _ Hne)) as [u Hu].
    rewrite (SendRequest_step url_Parse http_Do fuel w u Hu) in Hrun.
    destruct (url_Parse (URL_String u)) as [t|].
    + destruct (http_Do (sent w) (URL_String u)) as [resp|].
      * destruct (decide (StatusCode resp = 200%Z)).
        -- exists (EvRoundTrip (URL_String u) false ::
                   match Body resp with
                   | None => [EvLog "Error reading response"]
                   | Some body => [EvLog ("Response from server: " ++ body)]
                   end).
           split.
           ++ destruct (Body resp); injection Hrun as <-; cbn;
                by rewrite <- app_assoc.
           ++ apply outside_lock_cons. destruct (Body resp); apply outside_lock_log.
        -- apply IH in Hrun as (evs & Ht & He).
           exists (EvRoundTrip (URL_String u) false :: evs). split.
           ++ rewrite Ht. cbn. by rewrite <- app_assoc.
           ++ by apply outside_lock_cons.
      * unfold mbind, M_bind in Hrun. rewrite RemoveURL_run in Hrun.
        apply IH in Hrun as (evs & Ht & He).
        exists (EvRoundTrip (URL_String u) false :: evs). split.
        -- rewrite Ht. cbn. by rewrite <- app_assoc.
        -- by apply outside_lock_cons.
    + injection Hrun as <-. eexists. split; [reflexivity|]. apply outside_lock_log.
Qed.

(** Inside the loop of the prober the mutex stays held, and every probe is
    a round trip made while it is. *)
Lemma restore_entry_inside_lock (a : nat) (w : World) :
  lock (balancer w) = true →
  ∃ w' evs, restore_entry url_Parse http_Do a w = Ret () w'
    ∧ lock (balancer w') = true
    ∧ trace w' = (trace w ++ evs)%list ∧ inside_lock evs.
Proof.
  intros Hl. destruct (removedUrls (balancer w) !! a) as [s|] eqn:Ha.
  - assert (inside_lock [EvRoundTrip s (lock (balancer w))]) as Hin.
    { intros t h Hi. apply list_elem_of_singleton in Hi. congruence. }
    destruct (healthy url_Parse http_Do (sent w) s) eqn:Hh.
    + destruct (restore_entry_healthy url_Parse http_Do a s w Ha Hh) as (t & _ & ->).
      eexists _, _. split; [reflexivity|]. cbn. done.
    + destruct (restore_entry_unhealthy url_Parse http_Do a s w Ha Hh)
        as (w' & -> & Hb & _ & [Ht|Ht]).
      * eexists _, _. split; [reflexivity|]. rewrite Hb. done.
      * eexists _, _. split; [reflexivity|]. rewrite Hb.
        split; [done|]. split; [done|].
        intros t h Hi. by apply list_elem_of_singleton in Hi.
  - rewrite restore_entry_absent by done. exists w, [].
    rewrite app_nil_r. split; [done|]. split; [done|]. split; [done|].
    intros t h Hi. by apply elem_of_nil in Hi.
Qed.

Lemma CheckAndRestoreUrls_inside_lock (order : list nat) (w : World) :
  ∃ w' evs, CheckAndRestoreUrls url_Parse http_Do order w = Ret () w'
    ∧ lock (balancer w') = false
    ∧ trace w' = (trace w ++ evs)%list ∧ inside_lock evs.
Proof.
  rewrite CheckAndRestoreUrls_unfold.
  destruct (for_each_invariant
    (λ w1, lock (balancer w1) = true
           ∧ ∃ evs, trace w1 = (trace w ++ evs)%list ∧ inside_lock evs)
    (restore_entry url_Parse http_Do) order) with
    (w := with_balancer w (mkBalancer (activeUrls (balancer w))
            (removedUrls (balancer w)) (currentIndex (balancer w)) true))
    as (w1 & -> & Hl & evs & Ht & He).
  - intros a w0 (Hl & evs & Ht & He).
    destruct (restore_entry_inside_lock a w0 Hl) as (w' & evs' & Hr & Hl' & Ht' & He').
    exists w'. split; [done|]. split; [done|]. exists (evs ++ evs')%list. split.
    + by rewrite Ht', Ht, app_assoc.
    + intros t h Hi. apply elem_of_app in Hi as [Hi|Hi]; [by eapply He|by eapply He'].
  - split; [done|]. exists []. rewrite app_nil_r. split; [done|].
    intros t h Hi. by apply elem_of_nil in Hi.
  - eexists _, evs. split; [reflexivity|]. done.
Qed.

(** C10, amended. [GetNextURL] and [RemoveURL] make no round trip and
    release the mutex before they return, and the round trips of the
    dispatcher are made with the mutex free.  [CheckAndRestoreUrls] (the
    same in [loadbalance.go] and in [main.go]) holds the mutex from its
    first statement to its return: each of its probes is a round trip made
    inside the critical section. *)
Theorem only_the_prober_holds_the_lock_across_io (w : World) :
  (∃ o w', GetNextURL w = Ret o w'
     ∧ trace w' = trace w ∧ lock (balancer w') = false)
  ∧ (∀ u, ∃ w', RemoveURL u w = Ret () w'
       ∧ trace w' = trace w ∧ lock (balancer w') = false)
  ∧ (∀ fuel w', SendRequest url_Parse http_Do fuel w = Ret () w' →
       ∃ evs, trace w' = (trace w ++ evs)%list ∧ outside_lock evs)
  ∧ (∀ order, ∃ w' evs,
       CheckAndRestoreUrls url_Parse http_Do order w = Ret () w'
       ∧ main_CheckAndRestoreUrls url_Parse http_Do order w = Ret () w'
       ∧ lock (balancer w') = false
       ∧ trace w' = (trace w ++ evs)%list ∧ inside_lock evs).
Proof.
  split; [|split; [|split]].
  - destruct (decide (activeUrls (balancer w) = [])) as [He|Hne].
    + eexists _, _. split; [by apply GetNextURL_empty|done].
    + destruct (lookup_lt_is_Some_2 _ _ (slot_in_range _ Hne)) as [u Hu].
      eexists _, _. split; [by apply GetNextURL_pick|done].
  - intros u. eexists. split; [apply RemoveURL_run|done].
  - intros fuel w'. apply SendRequest_outside_lock.
  - intros order.
    destruct (CheckAndRestoreUrls_inside_lock order w) as (w' & evs & Hr & H).
    exists w', evs. split; [done|]. split; [exact Hr|done].
Qed.

End Critical.

(** C10 as stated fails for the prober: its probe of the removed endpoint
    is sent while the mutex is held. *)
Lemma prober_probes_inside_lock :
  ¬ io_outside_lock (CheckAndRestoreUrls parse_any mock_server [4]) degraded
  ∧ ¬ io_outside_lock (main_CheckAndRestoreUrls parse_any mock_server [4]) degraded.
Proof.
  split; intros (w' & evs & Hrun & Ht & Hout);
    vm_compute in Hrun; injection Hrun as <-; cbn in Ht;
    subst evs; (assert (true = false) as Hf;
      [apply (Hout "http://localhost:82"); constructor|done]).
Qed.

(** ** The scenarios of the tests *)

(** [TestSendRequest]: one backend that answers 200 with a body; the body
    is logged and the backend stays active. *)
Example dispatch_to_mock_server :
  ∃ w w', install parse_any [mkURL 0 "http://127.0.0.1:8080"] boot = Ret () w
    ∧ SendRequest parse_any mock_server 1 w = Ret () w'
    ∧ trace w' = [EvRoundTrip "http://127.0.0.1:8080" false;
                  EvLog "Response from server: mock response"]
    ∧ activeUrls (balancer w') = [mkURL 3 "http://127.0.0.1:8080"]
    ∧ removedUrls (balancer w') = ∅.
Proof.
  eexists _, _. split; [vm_compute; reflexivity|].
  split; [vm_compute; reflexivity|]. done.
Qed.

(** One backend that cannot be reached: it is removed, and the next
    selection finds nothing. *)
Example dispatch_to_closed_server :
  ∃ w w' w'', install parse_any [mkURL 0 "http://127.0.0.1:8080"] boot = Ret () w
    ∧ SendRequest parse_any unreachable 2 w = Ret () w'
    ∧ activeUrls (balancer w') = []
    ∧ removedUrls (balancer w') !! 3 = Some "http://127.0.0.1:8080"
    ∧ GetNextURL w' = Ret None w''.
Proof.
  eexists _, _, _. split; [vm_compute; reflexivity|].
  split; [vm_compute; reflexivity|]. split; [done|]. split; [done|].
  vm_compute. reflexivity.
Qed.

(** [TestCheckAndRestoreUrls]: a removed backend that answers 200 is active
    again after one run of the prober. *)
Example probe_of_recovered_server :
  ∃ w', CheckAndRestoreUrls parse_any mock_server [4] degraded = Ret () w'
    ∧ activeUrls (balancer w')
      = [mkURL 3 "http://localhost:81"; mkURL 5 "http://localhost:83";
         mkURL 6 "http://localhost:82"]
    ∧ removedUrls (balancer w') = ∅.
Proof.
  eexists. split; [vm_compute; reflexivity|]. split; [done|].
  apply map_eq. intros a. vm_compute. by destruct a.
Qed.

(** * Further properties of the balancer *)

Local Open Scope list_scope.

(** ** Construction *)

Section Construction.

Variable url_Parse : string → option string.
Variable http_Do : nat → string → option Response.

Lemma parse_backends_builds (backendUrls : list URL) (w : World) :
  ∃ urls, parse_backends url_Parse backendUrls w
          = Ret urls (mkWorld (balancer w) (brk w + length urls) (sent w)
                        (trace w ++ rejections url_Parse backendUrls))
    ∧ texts urls = omap url_Parse (texts backendUrls)
    ∧ addr <$> urls = seq (brk w) (length urls).
Proof.
  revert w. induction backendUrls as [|b bs IH]; intros w.
  - exists []. cbn. rewrite Nat.add_0_r, app_nil_r. by destruct w.
  - cbn [parse_backends]. unfold url_Parse_new, mbind, M_bind.
    destruct (url_Parse (URL_String b)) as [t|] eqn:Hp.
    + destruct (IH (mkWorld (balancer w) (S (brk w)) (sent w) (trace w)))
        as (urls & -> & Ht & Ha).
      exists (mkURL (brk w) t :: urls).
      unfold rejections, texts in *. cbn. rewrite Hp. cbn in *.
      split; [do 2 f_equal; lia|]. split; [by rewrite <- Ht|by rewrite Ha].
    + cbn. unfold log_Println, emit.
      destruct (IH (mkWorld (balancer w) (brk w) (sent w)
                      (trace w ++ [EvLog ("Invalid URL " ++ URL_String b)%string])))
        as (urls & -> & Ht & Ha).
      exists urls. unfold rejections, texts in *. cbn. rewrite Hp. cbn in *.
      split; [by rewrite <- app_assoc|]. done.
Qed.

(** X1. [NewRoundRobinBalancer] returns a balancer whose [activeUrls]
    holds, in the order of the configuration, one newly allocated URL for
    each backend whose text parses, with the parsed text; [removedUrls] is
    empty and the cursor is 0.  A backend that does not parse is logged and
    is in neither set.  No request is sent. *)
Theorem NewRoundRobinBalancer_builds (backendUrls : list URL) (w : World) :
  ∃ r, NewRoundRobinBalancer url_Parse backendUrls w
       = Ret r (mkWorld (balancer w) (brk w + length (activeUrls r)) (sent w)
                  (trace w ++ rejections url_Parse backendUrls))
    ∧ texts (activeUrls r) = omap url_Parse (texts backendUrls)
    ∧ addr <$> activeUrls r = seq (brk w) (length (activeUrls r))
    ∧ removedUrls r = ∅ ∧ currentIndex r = 0%Z ∧ lock r = false.
Proof.
  unfold NewRoundRobinBalancer, mbind, M_bind.
  destruct (parse_backends_builds backendUrls w) as (urls & -> & Ht & Ha).
  exists (mkBalancer urls ∅ 0 false). split; [reflexivity|]. done.
Qed.

Lemma excise_sublist_urls (s : string) (urls : list URL) :
  excise s urls `sublist_of` urls.
Proof.
  induction urls as [|u urls IH]; [done|]. cbn.
  destruct (decide (URL_String u = s)).
  - by apply sublist_cons.
  - by apply sublist_skip.
Qed.

Lemma GetNextURL_returns (w : World) :
  ∃ o w', GetNextURL w = Ret o w'
    ∧ activeUrls (balancer w') = activeUrls (balancer w)
    ∧ removedUrls (balancer w') = removedUrls (balancer w)
    ∧ brk w' = brk w ∧ sent w' = sent w ∧ trace w' = trace w
    ∧ (o = None ↔ activeUrls (balancer w) = [])
    ∧ (∀ u, o = Some u → u ∈ activeUrls (balancer w)).
Proof.
  destruct (decide (activeUrls (balancer w) = [])) as [He|Hne].
  - eexists _, _. split; [by apply GetNextURL_empty|]. cbn.
    rewrite He. repeat split; done.
  - destruct (lookup_lt_is_Some_2 _ _ (slot_in_range _ Hne)) as [u Hu].
    eexists _, _. split; [by apply GetNextURL_pick|]. cbn.
    repeat split; try done.
    intros v [= <-]. by eapply list_elem_of_lookup_2.
Qed.

Lemma perform_returns (c : call) (w : World) :
  ∃ w', perform url_Parse http_Do c w = Ret () w'.
Proof.
  destruct c as [|u|order]; cbn [perform].
  - unfold mbind, M_bind.
    destruct (GetNextURL_returns w) as (o & w' & -> & _). by exists w'.
  - rewrite RemoveURL_run. by eexists.
  - destruct (CheckAndRestoreUrls_cursor url_Parse http_Do order w) as (w' & -> & _).
    by exists w'.
Qed.

End Construction.

(** ** Pointers *)

Section Pointers.

Variable url_Parse : string → option string.
Variable http_Do : nat → string → option Response.

Lemma fresh_restore_entry (a : nat) (w : World) :
  pointers_fresh w →
  ∃ w', restore_entry url_Parse http_Do a w = Ret () w' ∧ pointers_fresh w'.
Proof.
  intros [Hnd Hlt]. destruct (removedUrls (balancer w) !! a) as [s|] eqn:Ha.
  - destruct (healthy url_Parse http_Do (sent w) s) eqn:Hh.
    + destruct (restore_entry_healthy url_Parse http_Do a s w Ha Hh) as (t & _ & ->).
      eexists. split; [reflexivity|]. split; cbn.
      * rewrite fmap_app. apply NoDup_app. split; [done|]. split.
        -- intros x Hx Hb. cbn in Hb. apply list_elem_of_singleton in Hb as ->.
           apply list_elem_of_fmap in Hx as (u & Hu & Hin).
           specialize (Hlt u Hin). lia.
        -- cbn. apply NoDup_singleton.
      * intros u Hu. apply elem_of_app in Hu as [Hu|Hu].
        -- specialize (Hlt u Hu). lia.
        -- apply list_elem_of_singleton in Hu as ->. cbn. lia.
    + destruct (restore_entry_unhealthy url_Parse http_Do a s w Ha Hh)
        as (w' & -> & Hb & Hk & _).
      exists w'. split; [done|]. unfold pointers_fresh. by rewrite Hb, Hk.
  - rewrite restore_entry_absent by done. by exists w.
Qed.

Lemma fresh_perform (c : call) (w : World) :
  pointers_fresh w →
  ∃ w', perform url_Parse http_Do c w = Ret () w' ∧ pointers_fresh w'.
Proof.
  intros [Hnd Hlt]. destruct c as [|u|order]; cbn [perform].
  - unfold mbind, M_bind.
    destruct (GetNextURL_returns w) as (o & w' & -> & Ha & _ & Hb & _).
    exists w'. split; [done|]. unfold pointers_fresh. by rewrite Ha, Hb.
  - rewrite RemoveURL_run. eexists. split; [reflexivity|].
    pose proof (excise_sublist_urls (URL_String u) (activeUrls (balancer w))) as Hs.
    split; cbn.
    + apply (sublist_NoDup _ (addr <$> activeUrls (balancer w)));
        [done|by apply fmap_sublist].
    + intros v Hv. apply Hlt. by eapply elem_of_sublist.
  - rewrite CheckAndRestoreUrls_unfold.
    destruct (for_each_invariant pointers_fresh
      (restore_entry url_Parse http_Do) order fresh_restore_entry)
      with (w := with_balancer w (mkBalancer (activeUrls (balancer w))
              (removedUrls (balancer w)) (currentIndex (balancer w)) true))
      as (w1 & -> & Hf); [done|].
    eexists. split; [reflexivity|]. done.
Qed.

(** X2. Whatever the configuration, the network and the calls made after
    construction, [activeUrls] never holds the same pointer twice: every
    entry is a URL of its own, made by [url.Parse] in
    [NewRoundRobinBalancer] or in [CheckAndRestoreUrls]. *)
Theorem active_pointers_distinct (backendUrls : list URL) (calls : list call)
    (w0 : World) :
  ∃ w, (install url_Parse backendUrls;; for_each calls (perform url_Parse http_Do)) w0
       = Ret () w
    ∧ NoDup (addr <$> activeUrls (balancer w))
    ∧ NoDup (activeUrls (balancer w)).
Proof.
  assert (∃ w1, install url_Parse backendUrls w0 = Ret () w1 ∧ pointers_fresh w1)
    as (w1 & Hrun & Hf).
  { unfold install, NewRoundRobinBalancer, mbind, M_bind.
    destruct (parse_backends_builds url_Parse backendUrls w0)
      as (urls & -> & _ & Ha).
    eexists. split; [reflexivity|]. split; cbn.
    - rewrite Ha. apply NoDup_seq.
    - intros u Hu. assert (addr u ∈ addr <$> urls) as Hin
        by (apply list_elem_of_fmap; eauto).
      rewrite Ha in Hin. apply elem_of_seq in Hin. lia. }
  destruct (for_each_invariant pointers_fresh (perform url_Parse http_Do) calls
              fresh_perform w1 Hf) as (w & Hcalls & Hnd & _).
  exists w. unfold mbind, M_bind. rewrite Hrun. split; [done|].
  split; [done|]. by eapply NoDup_fmap_1.
Qed.

End Pointers.

(** ** Removal, further *)

Lemma excise_first_match (s : string) (urls : list URL) :
  s ∈ texts urls →
  ∃ before x after, urls = (before ++ x :: after)
    ∧ URL_String x = s ∧ (s ∉ texts before)
    ∧ excise s urls = before ++ after.
Proof.
  induction urls as [|u urls IH]; cbn; [by intros ?%elem_of_nil|].
  intros Hin. destruct (decide (URL_String u = s)) as [He|Hne].
  - exists [], u, urls. repeat split; [done|]. cbn. apply not_elem_of_nil.
  - apply elem_of_cons in Hin as [|Hin]; [congruence|].
    destruct (IH Hin) as (before & x & after & -> & Hx & Hb & ->).
    exists (u :: before), x, after. repeat split; [done|].
    cbn. apply not_elem_of_cons. split; [congruence|done].
Qed.

(** X3. [RemoveURL] cuts exactly one entry out of [activeUrls]: the first
    one whose text is the text of its argument, which need not be the
    argument itself.  The entries before and after it keep their order,
    later entries with the same text stay active, and the cursor is not
    moved. *)
Theorem RemoveURL_cuts_first_match (u : URL) (w : World) :
  URL_String u ∈ texts (activeUrls (balancer w)) →
  ∃ before x after w',
    activeUrls (balancer w) = (before ++ x :: after)
    ∧ URL_String x = URL_String u
    ∧ (URL_String u ∉ texts before)
    ∧ RemoveURL u w = Ret () w'
    ∧ activeUrls (balancer w') = before ++ after
    ∧ removedUrls (balancer w')
      = <[addr u := URL_String u]> (removedUrls (balancer w))
    ∧ currentIndex (balancer w') = currentIndex (balancer w).
Proof.
  intros Hin.
  destruct (excise_first_match _ _ Hin) as (before & x & after & Hl & Hx & Hb & He).
  exists before, x, after. eexists. split; [done|]. split; [done|].
  split; [done|]. split; [apply RemoveURL_run|]. cbn. by rewrite He.
Qed.

Lemma RemoveURL_cuts_first_match_witness :
  ∃ w', RemoveURL (mkURL 9 "http://localhost:82") serving = Ret () w'
    ∧ activeUrls (balancer w')
      = [mkURL 3 "http://localhost:81"; mkURL 5 "http://localhost:83"].
Proof.
  destruct (RemoveURL_cuts_first_match (mkURL 9 "http://localhost:82") serving)
    as (before & x & after & w' & Hl & Hx & Hb & Hrun & Ha & _).
  - cbn. rewrite !elem_of_cons. tauto.
  - exists w'. split; [done|].
    rewrite RemoveURL_run in Hrun. injection Hrun as <-. reflexivity.
Defined.

Lemma select_many_picks_active (n : nat) (w : World) :
  ∃ picks w', select_many n w = Ret picks w'
    ∧ length picks = n
    ∧ (∀ v, Some v ∈ picks → v ∈ activeUrls (balancer w))
    ∧ activeUrls (balancer w') = activeUrls (balancer w)
    ∧ removedUrls (balancer w') = removedUrls (balancer w)
    ∧ sent w' = sent w ∧ trace w' = trace w.
Proof.
  revert w. induction n as [|n IH]; intros w.
  - exists [], w. split; [done|]. split; [done|]. split; [|done].
    by intros v ?%elem_of_nil.
  - cbn [select_many]. unfold mbind, M_bind.
    destruct (GetNextURL_returns w) as (o & w1 & -> & Ha & Hr & _ & Hs & Ht & _ & Ho).
    destruct (IH w1) as (picks & w' & -> & Hl & Hp & Ha' & Hr' & Hs' & Ht').
    exists (o :: picks), w'. split; [done|]. split; [by cbn; rewrite Hl|].
    split; [|split; [congruence|split; [congruence|split; congruence]]].
    intros v Hv. apply elem_of_cons in Hv as [Hv|Hv]; [by apply Ho|].
    rewrite <- Ha. by apply Hp.
Qed.

(** X4. When the active texts are pairwise distinct, an endpoint that has
    been removed is not selected again: however many selections follow
    [RemoveURL], none returns a URL with the text of the removed one. *)
Theorem removed_endpoint_is_not_selected (u : URL) (n : nat) (w : World) :
  NoDup (texts (activeUrls (balancer w))) →
  ∃ picks w', (RemoveURL u;; select_many n) w = Ret picks w'
    ∧ length picks = n
    ∧ (∀ v, Some v ∈ picks → URL_String v ≠ URL_String u).
Proof.
  intros Hnd. unfold mbind, M_bind. rewrite RemoveURL_run.
  destruct (select_many_picks_active n (with_balancer w
    (mkBalancer (excise (URL_String u) (activeUrls (balancer w)))
       (<[addr u := URL_String u]> (removedUrls (balancer w)))
       (currentIndex (balancer w)) false)))
    as (picks & w' & -> & Hl & Hp & _).
  exists picks, w'. split; [done|]. split; [done|].
  intros v Hv Heq. apply Hp in Hv. cbn in Hv.
  apply (excise_cuts (URL_String u) (activeUrls (balancer w)) Hnd).
  unfold texts. apply list_elem_of_fmap. exists v. by split.
Qed.

Lemma removed_endpoint_is_not_selected_witness :
  ∃ picks w',
    (RemoveURL (mkURL 4 "http://localhost:82");; select_many 4) serving
    = Ret picks w'
    ∧ length picks = 4
    ∧ (∀ v, Some v ∈ picks → URL_String v ≠ "http://localhost:82").
Proof.
  apply (removed_endpoint_is_not_selected (mkURL 4 "http://localhost:82") 4 serving).
  cbn. distinct_entries.
Defined.

(** X5. With pairwise distinct active texts, [RemoveURL] is idempotent:
    a second call with the same URL changes nothing. *)
Theorem RemoveURL_twice (u : URL) (w : World) :
  NoDup (texts (activeUrls (balancer w))) →
  (RemoveURL u;; RemoveURL u) w = RemoveURL u w.
Proof.
  intros Hnd. unfold mbind, M_bind. rewrite !RemoveURL_run. cbn.
  rewrite insert_insert_eq.
  rewrite (excise_absent (URL_String u) (excise (URL_String u) _))
    by by apply excise_cuts.
  reflexivity.
Qed.

Lemma RemoveURL_twice_witness :
  (RemoveURL (mkURL 4 "http://localhost:82");;
   RemoveURL (mkURL 4 "http://localhost:82")) serving
  = RemoveURL (mkURL 4 "http://localhost:82") serving.
Proof.
  apply (RemoveURL_twice (mkURL 4 "http://localhost:82") serving).
  cbn. distinct_entries.
Defined.

(** ** The prober, further *)

Lemma filter_agree {A} (P Q : A → Prop) `{∀ x, Decision (P x)}
    `{∀ x, Decision (Q x)} (l : list A) :
  (∀ x, x ∈ l → P x ↔ Q x) → filter P l = filter Q l.
Proof.
  induction l as [|x l IH]; intros Hl; [done|].
  rewrite !filter_cons.
  pose proof (Hl x ltac:(left)) as Hx.
  rewrite IH by (intros y Hy; apply Hl; by right).
  destruct (decide (P x)), (decide (Q x)); tauto.
Qed.


Section ProberRuns.

Variable url_Parse : string → option string.
Variable http_Do : nat → string → option Response.

Lemma excise_restores (s : string) (urls : list URL) :
  s ∈ texts urls → texts (excise s urls) ++ [s] ≡ₚ texts urls.
Proof.
  intros Hin.
  destruct (excise_first_match s urls Hin) as (before & x & after & -> & <- & _ & ->).
  unfold texts. rewrite !fmap_app, fmap_cons, <- app_assoc.
  apply Permutation_app_head. cbn.
  rewrite <- Permutation_cons_append. done.
Qed.

Lemma restore_entry_conserves (a : nat) (w : World) :
  ∃ w', restore_entry url_Parse http_Do a w = Ret () w'
    ∧ activeUrls (balancer w) `prefix_of` activeUrls (balancer w')
    ∧ removedUrls (balancer w') ⊆ removedUrls (balancer w)
    ∧ length (activeUrls (balancer w')) + size (removedUrls (balancer w'))
      = length (activeUrls (balancer w)) + size (removedUrls (balancer w))
    ∧ (sent w ≤ sent w' ≤ S (sent w))%nat.
Proof.
  destruct (removedUrls (balancer w) !! a) as [s|] eqn:Ha.
  - destruct (healthy url_Parse http_Do (sent w) s) eqn:Hh.
    + destruct (restore_entry_healthy url_Parse http_Do a s w Ha Hh) as (t & _ & ->).
      eexists. split; [reflexivity|]. cbn. split; [by apply prefix_app_r|].
      split; [apply delete_subseteq|]. split; [|lia].
      rewrite length_app. cbn.
      pose proof (map_size_delete_Some a (removedUrls (balancer w))
                    ltac:(by eexists)) as Hsz.
      assert (size (removedUrls (balancer w)) ≠ 0) as Hne.
      { intros Hz. apply map_size_empty_inv in Hz. rewrite Hz in Ha.
        by rewrite lookup_empty in Ha. }
      lia.
    + unfold healthy, probe in Hh. unfold restore_entry.
      unfold http_NewRequestWithContext, DefaultClient_Do, url_Parse_new.
      run. rewrite Ha.
      destruct (url_Parse s) as [t|]; cbn.
      * destruct (http_Do (sent w) s) as [resp|]; cbn.
        -- apply bool_decide_eq_false in Hh.
           destruct (decide (StatusCode resp = 200%Z)); [done|].
           eexists. split; [reflexivity|]. cbn. repeat split; try done; lia.
        -- eexists. split; [reflexivity|]. cbn. repeat split; try done; lia.
      * eexists. split; [reflexivity|]. cbn. repeat split; try done; lia.
  - rewrite restore_entry_absent by done. exists w. repeat split; try done; lia.
Qed.

Lemma prober_loop_conserves (order : list nat) (w1 : World) :
  ∃ w', for_each order (restore_entry url_Parse http_Do) w1 = Ret () w'
    ∧ activeUrls (balancer w1) `prefix_of` activeUrls (balancer w')
    ∧ removedUrls (balancer w') ⊆ removedUrls (balancer w1)
    ∧ length (activeUrls (balancer w')) + size (removedUrls (balancer w'))
      = length (activeUrls (balancer w1)) + size (removedUrls (balancer w1))
    ∧ (sent w1 ≤ sent w' ≤ sent w1 + length order)%nat.
Proof.
  revert w1. induction order as [|a order IH]; intros w1.
  - exists w1. cbn. repeat split; try done; lia.
  - destruct (restore_entry_conserves a w1) as (w2 & Hr & Hp & Hm & Hc & Hs).
    destruct (IH w2) as (w' & Hr' & Hp' & Hm' & Hc' & Hs').
    exists w'. cbn [for_each length]. unfold mbind, M_bind. rewrite Hr.
    split; [done|]. split; [by etrans|]. split; [by etrans|].
    split; lia.
Qed.

(** X7. A run of the prober only moves entries from [removedUrls] to the
    end of [activeUrls]: what was active stays active in the same
    positions, no key is added to [removedUrls], the number of entries in
    both together is unchanged, and at most one request is sent for each
    key the loop visits. *)
Theorem CheckAndRestoreUrls_conserves (order : list nat) (w : World) :
  ∃ w', CheckAndRestoreUrls url_Parse http_Do order w = Ret () w'
    ∧ activeUrls (balancer w) `prefix_of` activeUrls (balancer w')
    ∧ removedUrls (balancer w') ⊆ removedUrls (balancer w)
    ∧ length (activeUrls (balancer w')) + size (removedUrls (balancer w'))
      = length (activeUrls (balancer w)) + size (removedUrls (balancer w))
    ∧ (sent w ≤ sent w' ≤ sent w + length order)%nat.
Proof.
  rewrite CheckAndRestoreUrls_unfold.
  set (w0 := with_balancer w _).
  destruct (prober_loop_conserves order w0) as (w' & -> & Hp & Hm & Hc & Hs).
  eexists. split; [reflexivity|]. done.
Qed.

Lemma restore_entry_sent (a : nat) (w : World) :
  ∃ w', restore_entry url_Parse http_Do a w = Ret () w'
    ∧ sent w' = sent w
                + (if decide (probed url_Parse (removedUrls (balancer w)) a)
                   then 1 else 0)
    ∧ (∀ b, b ≠ a → removedUrls (balancer w') !! b = removedUrls (balancer w) !! b).
Proof.
  destruct (decide (probed url_Parse (removedUrls (balancer w)) a)) as [Hy|Hn];
    unfold probed in *;
    unfold restore_entry, http_NewRequestWithContext, DefaultClient_Do,
      url_Parse_new; run;
    destruct (removedUrls (balancer w) !! a) as [s|] eqn:Ha; cbn in *;
    try (destruct (url_Parse s) as [t|]; cbn in * );
    try (by destruct Hy); try (by exfalso; apply Hn; eexists);
    try (destruct (http_Do (sent w) s) as [resp|]; cbn);
    try (destruct (decide (StatusCode resp = 200%Z)); cbn);
    (eexists; split; [reflexivity|]; cbn; split; [lia|]; try done;
     intros b Hb; by rewrite lookup_delete_ne).
Qed.

(** X8. The prober does not stop at the first failure: when its loop
    visits every key once, it sends exactly one request for each key of
    [removedUrls] whose text a request can be built from, whatever the
    answers to the earlier ones. *)
Theorem CheckAndRestoreUrls_probes_every_key (order : list nat) (w : World) :
  NoDup order →
  ∃ w', CheckAndRestoreUrls url_Parse http_Do order w = Ret () w'
    ∧ sent w' = sent w
                + length (filter (probed url_Parse (removedUrls (balancer w))) order).
Proof.
  intros Hnd. rewrite CheckAndRestoreUrls_unfold.
  set (w0 := with_balancer w _).
  assert (∀ order w1, NoDup order →
    ∃ w', for_each order (restore_entry url_Parse http_Do) w1 = Ret () w'
      ∧ sent w' = sent w1
          + length (filter (probed url_Parse (removedUrls (balancer w1))) order))
    as Hloop.
  { clear. induction order as [|a order IH]; intros w1 Hnd.
    - exists w1. cbn. split; [done|lia].
    - apply NoDup_cons in Hnd as [Hna Hnd].
      destruct (restore_entry_sent a w1) as (w2 & Hr & Hs & Hm).
      destruct (IH w2 Hnd) as (w' & Hr' & Hs').
      exists w'. cbn [for_each]. unfold mbind, M_bind. rewrite Hr.
      split; [done|]. rewrite Hs', Hs, filter_cons.
      assert (filter (probed url_Parse (removedUrls (balancer w2))) order
              = filter (probed url_Parse (removedUrls (balancer w1))) order) as ->.
      { apply filter_agree. intros b Hb. unfold probed.
        rewrite Hm; [done|]. by intros ->. }
      destruct (decide (probed url_Parse (removedUrls (balancer w1)) a));
        cbn [length]; lia. }
  destruct (Hloop order w0 Hnd) as (w' & -> & Hs).
  eexists. split; [reflexivity|]. done.
Qed.

Lemma restore_entry_appends (a : nat) (w : World) :
  ∃ w' rest, restore_entry url_Parse http_Do a w = Ret () w'
    ∧ activeUrls (balancer w') = activeUrls (balancer w) ++ rest
    ∧ (∀ v, v ∈ rest → (brk w ≤ addr v)%nat)
    ∧ (brk w ≤ brk w')%nat
    ∧ removedUrls (balancer w') ⊆ removedUrls (balancer w)
    ∧ (∀ b, b ≠ a →
         removedUrls (balancer w') !! b = removedUrls (balancer w) !! b)
    ∧ currentIndex (balancer w') = currentIndex (balancer w).
Proof.
  destruct (removedUrls (balancer w) !! a) as [s|] eqn:Ha.
  - destruct (healthy url_Parse http_Do (sent w) s) eqn:Hh.
    + destruct (restore_entry_healthy url_Parse http_Do a s w Ha Hh) as (t & _ & ->).
      eexists _, [mkURL (brk w) t]. split; [reflexivity|]. cbn.
      split; [done|]. split; [by intros v ->%list_elem_of_singleton|].
      split; [lia|]. split; [apply delete_subseteq|]. split; [|done].
      intros b Hb. by rewrite lookup_delete_ne.
    + destruct (restore_entry_unhealthy url_Parse http_Do a s w Ha Hh)
        as (w' & -> & Hbal & Hbrk & _).
      exists w', []. rewrite Hbal, Hbrk, app_nil_r.
      split; [done|]. split; [done|]. split; [by intros v ?%elem_of_nil|].
      done.
  - rewrite restore_entry_absent by done. exists w, []. rewrite app_nil_r.
    split; [done|]. split; [done|]. split; [by intros v ?%elem_of_nil|]. done.
Qed.

Lemma prober_loop_appends (order : list nat) (w1 : World) :
  ∃ w' rest, for_each order (restore_entry url_Parse http_Do) w1 = Ret () w'
    ∧ activeUrls (balancer w') = activeUrls (balancer w1) ++ rest
    ∧ (∀ v, v ∈ rest → (brk w1 ≤ addr v)%nat)
    ∧ removedUrls (balancer w') ⊆ removedUrls (balancer w1)
    ∧ currentIndex (balancer w') = currentIndex (balancer w1).
Proof.
  revert w1. induction order as [|b order IH]; intros w1.
  - exists w1, []. rewrite app_nil_r. split; [done|]. split; [done|].
    split; [by intros v ?%elem_of_nil|]. done.
  - destruct (restore_entry_appends b w1)
      as (w2 & rest1 & Hr & Ha & Hf & Hb & Hm & _ & Hc).
    destruct (IH w2) as (w' & rest2 & Hr' & Ha' & Hf' & Hm' & Hc').
    exists w', (rest1 ++ rest2). cbn [for_each]. unfold mbind, M_bind. rewrite Hr.
    split; [done|]. split; [by rewrite Ha', Ha, app_assoc|].
    split; [|split; [by etrans|congruence]].
    intros v [Hv|Hv]%elem_of_app; [by apply Hf|].
    specialize (Hf' v Hv). lia.
Qed.

Lemma prober_loop_restores (order : list nat) (a : nat) (s : string) (w1 : World) :
  a ∈ order →
  removedUrls (balancer w1) !! a = Some s →
  url_Parse s = Some s →
  (∀ k, healthy url_Parse http_Do k s = true) →
  ∃ w' rest, for_each order (restore_entry url_Parse http_Do) w1 = Ret () w'
    ∧ activeUrls (balancer w') = activeUrls (balancer w1) ++ rest
    ∧ (∃ v, v ∈ rest ∧ URL_String v = s)
    ∧ (∀ v, v ∈ rest → (brk w1 ≤ addr v)%nat)
    ∧ removedUrls (balancer w') !! a = None
    ∧ currentIndex (balancer w') = currentIndex (balancer w1).
Proof.
  intros Hin Ha Hp Hh. revert w1 Hin Ha.
  induction order as [|b order IH]; intros w1 Hin Ha; [by apply elem_of_nil in Hin|].
  cbn [for_each]. unfold mbind, M_bind.
  destruct (decide (b = a)) as [->|Hne].
  - destruct (restore_entry_healthy url_Parse http_Do a s w1 Ha (Hh _))
      as (t & Ht & ->).
    rewrite Hp in Ht. injection Ht as <-.
    set (w2 := mkWorld _ _ _ _).
    destruct (prober_loop_appends order w2) as (w' & rest & Hr & Ha' & Hf & Hm & Hc).
    exists w', (mkURL (brk w1) s :: rest). split; [done|].
    split; [by rewrite Ha'; cbn; rewrite <- app_assoc|].
    split; [exists (mkURL (brk w1) s); split; [by left|done]|].
    split; [|split; [|done]].
    + intros v [->|Hv]%elem_of_cons; [done|].
      specialize (Hf v Hv). cbn in Hf. lia.
    + eapply lookup_weaken_None; [|exact Hm]. cbn. apply lookup_delete_eq.
  - destruct (restore_entry_appends b w1)
      as (w2 & rest1 & Hr & Ha1 & Hf1 & Hb1 & _ & Hsame & Hc1).
    rewrite Hr. apply elem_of_cons in Hin as [->|Hin]; [done|].
    destruct (IH w2 Hin) as (w' & rest2 & Hr' & Ha2 & (v & Hv & Hvs) & Hf2 & Hm2 & Hc2).
    { rewrite Hsame by done. exact Ha. }
    exists w', (rest1 ++ rest2). split; [done|].
    split; [by rewrite Ha2, Ha1, app_assoc|].
    split; [exists v; split; [apply elem_of_app; by right|done]|].
    split; [|split; [done|congruence]].
    intros v' [Hv'|Hv']%elem_of_app; [by apply Hf1|].
    specialize (Hf2 v' Hv'). lia.
Qed.

Lemma prober_loop_absent (order : list nat) (w1 : World) :
  (∀ b, b ∈ order → removedUrls (balancer w1) !! b = None) →
  for_each order (restore_entry url_Parse http_Do) w1 = Ret () w1.
Proof.
  induction order as [|b order IH]; intros Hnone; [done|].
  cbn [for_each]. unfold mbind, M_bind.
  rewrite restore_entry_absent by (apply Hnone; by left).
  apply IH. intros c Hc. apply Hnone. by right.
Qed.

Lemma prober_loop_only_key (order : list nat) (a : nat) (s : string) (w1 : World) :
  a ∈ order →
  removedUrls (balancer w1) !! a = Some s →
  (∀ b, is_Some (removedUrls (balancer w1) !! b) → b = a) →
  url_Parse s = Some s →
  healthy url_Parse http_Do (sent w1) s = true →
  for_each order (restore_entry url_Parse http_Do) w1
  = Ret () (mkWorld
      (mkBalancer (activeUrls (balancer w1) ++ [mkURL (brk w1) s])
                  (delete a (removedUrls (balancer w1)))
                  (currentIndex (balancer w1)) (lock (balancer w1)))
      (S (brk w1)) (S (sent w1))
      (trace w1 ++ [EvRoundTrip s (lock (balancer w1))])).
Proof.
  intros Hin Ha Honly Hp Hh.
  induction order as [|b order IH]; [by apply elem_of_nil in Hin|].
  cbn [for_each]. unfold mbind, M_bind.
  destruct (decide (b = a)) as [->|Hne].
  - destruct (restore_entry_healthy url_Parse http_Do a s w1 Ha Hh) as (t & Ht & ->).
    rewrite Hp in Ht. injection Ht as <-.
    apply prober_loop_absent. intros c _. cbn.
    destruct (decide (c = a)) as [->|Hc]; [apply lookup_delete_eq|].
    rewrite lookup_delete_ne by done.
    destruct (removedUrls (balancer w1) !! c) eqn:Hl; [|done].
    destruct Hc. apply Honly. by eexists.
  - rewrite restore_entry_absent.
    + apply IH. by apply elem_of_cons in Hin as [->|Hin].
    + destruct (removedUrls (balancer w1) !! b) eqn:Hl; [|done].
      destruct Hne. apply Honly. by eexists.
Qed.

(** X6. An endpoint that is removed and then answers every probe with 200
    is active again after the next run of the prober, whatever else
    [removedUrls] holds and in whatever order the prober visits its keys:
    the entries that stayed active are followed by newly parsed ones, one
    of which has the text of the endpoint; its key has left [removedUrls]
    and the cursor has not moved.  When [removedUrls] held no other key,
    the endpoint is the one new entry, at the end: [removedUrls] is empty
    again and, if the endpoint was active, the active texts are those from
    before in another order. *)
Theorem remove_then_restore (u : URL) (order : list nat) (w : World) :
  addr u ∈ order →
  url_Parse (URL_String u) = Some (URL_String u) →
  (∀ k, healthy url_Parse http_Do k (URL_String u) = true) →
  ∃ w' rest,
    (RemoveURL u;; CheckAndRestoreUrls url_Parse http_Do order) w = Ret () w'
    ∧ activeUrls (balancer w')
      = excise (URL_String u) (activeUrls (balancer w)) ++ rest
    ∧ (∃ v, v ∈ rest ∧ URL_String v = URL_String u)
    ∧ (∀ v, v ∈ rest → (brk w ≤ addr v)%nat)
    ∧ removedUrls (balancer w') !! addr u = None
    ∧ currentIndex (balancer w') = currentIndex (balancer w)
    ∧ ((∀ a, is_Some (removedUrls (balancer w) !! a) → a = addr u) →
       rest = [mkURL (brk w) (URL_String u)]
       ∧ removedUrls (balancer w') = ∅
       ∧ (URL_String u ∈ texts (activeUrls (balancer w)) →
          texts (activeUrls (balancer w')) ≡ₚ texts (activeUrls (balancer w)))).
Proof.
  intros Hin Hp Hh. unfold mbind, M_bind. rewrite RemoveURL_run.
  rewrite CheckAndRestoreUrls_unfold.
  set (w1 := with_balancer (with_balancer w _) _).
  assert (removedUrls (balancer w1) !! addr u = Some (URL_String u)) as Ha
    by apply lookup_insert_eq.
  destruct (prober_loop_restores order (addr u) (URL_String u) w1 Hin Ha Hp Hh)
    as (w2 & rest & Hrun & Hact & Hv & Hf & Hm & Hc).
  rewrite Hrun. exists (with_balancer w2 (mkBalancer (activeUrls (balancer w2))
    (removedUrls (balancer w2)) (currentIndex (balancer w2)) false)), rest.
  split; [done|]. cbn. split; [exact Hact|]. split; [exact Hv|].
  split; [exact Hf|]. split; [exact Hm|]. split; [exact Hc|].
  intros Honly.
  assert (∀ b, is_Some (removedUrls (balancer w1) !! b) → b = addr u) as Honly1.
  { intros b Hb. destruct (decide (b = addr u)) as [|Hne]; [done|].
    cbn in Hb. rewrite lookup_insert_ne in Hb by done. by apply Honly. }
  rewrite (prober_loop_only_key order (addr u) (URL_String u) w1
             Hin Ha Honly1 Hp (Hh _)) in Hrun.
  injection Hrun as <-. cbn in Hact. apply app_inv_head in Hact as <-.
  split; [done|]. cbn. split.
  - apply map_empty. intros b.
    destruct (decide (b = addr u)) as [->|Hne]; [apply lookup_delete_eq|].
    rewrite lookup_delete_ne, lookup_insert_ne by done.
    destruct (removedUrls (balancer w) !! b) eqn:Hl; [|done].
    destruct Hne. apply Honly. by eexists.
  - intros Hact. unfold texts at 1. rewrite fmap_app. cbn.
    by apply excise_restores.
Qed.


End ProberRuns.

(** [:82] is down already, [:81] is removed, and the prober visits the key
    of [:82] first. *)
Lemma remove_then_restore_witness :
  ∃ w', (RemoveURL (mkURL 3 "http://localhost:81");;
         CheckAndRestoreUrls parse_any mock_server [4; 3]) degraded = Ret () w'
    ∧ texts (activeUrls (balancer w'))
      = ["http://localhost:83"; "http://localhost:82"; "http://localhost:81"]
    ∧ removedUrls (balancer w') !! 3 = None.
Proof.
  destruct (remove_then_restore parse_any mock_server
              (mkURL 3 "http://localhost:81") [4; 3] degraded)
    as (w' & rest & Hrun & _ & _ & _ & Hm & _).
  - cbn. rewrite !elem_of_cons. tauto.
  - done.
  - done.
  - exists w'. split; [done|]. split; [|done].
    vm_compute in Hrun. injection Hrun as <-. reflexivity.
Defined.

Lemma CheckAndRestoreUrls_probes_every_key_witness :
  ∃ w', CheckAndRestoreUrls parse_any unreachable [4; 7] degraded = Ret () w'
    ∧ sent w' = sent degraded + 1.
Proof.
  destruct (CheckAndRestoreUrls_probes_every_key parse_any unreachable [4; 7]
              degraded) as (w' & Hrun & Hs).
  - repeat constructor; rewrite ?elem_of_cons, ?elem_of_nil; intuition lia.
  - exists w'. split; [done|]. rewrite Hs. reflexivity.
Defined.

Section ProberOutcomes.

Variable url_Parse : string → option string.
Variable http_Do : nat → string → option Response.

Lemma restore_entry_clears (a : nat) (w : World) :
  (∀ b s k, removedUrls (balancer w) !! b = Some s →
            healthy url_Parse http_Do k s = true) →
  ∃ w', restore_entry url_Parse http_Do a w = Ret () w'
    ∧ removedUrls (balancer w') = delete a (removedUrls (balancer w)).
Proof.
  intros Hall. destruct (removedUrls (balancer w) !! a) as [s|] eqn:Ha.
  - destruct (restore_entry_healthy url_Parse http_Do a s w Ha (Hall _ _ _ Ha))
      as (t & _ & ->).
    eexists. split; [reflexivity|]. done.
  - rewrite restore_entry_absent by done. exists w. split; [done|].
    by rewrite delete_id.
Qed.

(** X9. When every removed endpoint answers its probe with 200 and the
    loop of the prober visits every key, a run of the prober empties
    [removedUrls] and [activeUrls] grows by as many entries as
    [removedUrls] had. *)
Theorem CheckAndRestoreUrls_restores_all (order : list nat) (w : World) :
  (∀ a s k, removedUrls (balancer w) !! a = Some s →
            healthy url_Parse http_Do k s = true) →
  (∀ a, is_Some (removedUrls (balancer w) !! a) → a ∈ order) →
  ∃ w', CheckAndRestoreUrls url_Parse http_Do order w = Ret () w'
    ∧ removedUrls (balancer w') = ∅
    ∧ length (activeUrls (balancer w'))
      = length (activeUrls (balancer w)) + size (removedUrls (balancer w)).
Proof.
  intros Hall Hcov.
  rewrite CheckAndRestoreUrls_unfold.
  set (w0 := with_balancer w _).
  destruct (prober_loop_conserves url_Parse http_Do order w0)
    as (w' & Hrun & _ & _ & Hc & _).
  rewrite Hrun. eexists. split; [reflexivity|]. cbn in *.
  assert (removedUrls (balancer w') = ∅) as He.
  {
    assert (∀ order w1,
      (∀ b s k, removedUrls (balancer w1) !! b = Some s →
                healthy url_Parse http_Do k s = true) →
      ∃ w2, for_each order (restore_entry url_Parse http_Do) w1 = Ret () w2
        ∧ ∀ b, removedUrls (balancer w2) !! b
               = if decide (b ∈ order) then None
                 else removedUrls (balancer w1) !! b) as Hloop.
    { clear. induction order as [|a order IH]; intros w1 Hall.
      - exists w1. split; [done|]. intros b.
        destruct (decide (b ∈ [])) as [?%elem_of_nil|]; done.
      - destruct (restore_entry_clears a w1 Hall) as (w2 & Hr & Hm).
        destruct (IH w2) as (w3 & Hr' & Hm').
        { intros b s k Hb. rewrite Hm in Hb.
          apply lookup_delete_Some in Hb as [_ Hb]. by eapply Hall. }
        exists w3. cbn [for_each]. unfold mbind, M_bind. rewrite Hr.
        split; [done|]. intros b. rewrite Hm', Hm.
        destruct (decide (b ∈ order)) as [Hin|Hni].
        + rewrite decide_True by (by right). done.
        + destruct (decide (b = a)) as [->|Hne].
          * rewrite decide_True by (by left). apply lookup_delete_eq.
          * rewrite decide_False by (rewrite elem_of_cons; tauto).
            by apply lookup_delete_ne. }
    destruct (Hloop order w0 Hall) as (w2 & Hr & Hm).
    rewrite Hr in Hrun. injection Hrun as <-.
    apply map_empty. intros b. rewrite Hm.
    destruct (decide (b ∈ order)) as [|Hni]; [done|].
    destruct (removedUrls (balancer w0) !! b) eqn:Hb; [|done].
    destruct Hni. apply Hcov. by eexists. }
  split; [done|]. rewrite He, map_size_empty in Hc. lia.
Qed.

(** X10. When no removed endpoint answers its probe with 200, a run of the
    prober changes neither set nor the cursor, and parses nothing. *)
Theorem CheckAndRestoreUrls_keeps_unhealthy (order : list nat) (w : World) :
  (∀ a s k, removedUrls (balancer w) !! a = Some s →
            healthy url_Parse http_Do k s = false) →
  ∃ w', CheckAndRestoreUrls url_Parse http_Do order w = Ret () w'
    ∧ activeUrls (balancer w') = activeUrls (balancer w)
    ∧ removedUrls (balancer w') = removedUrls (balancer w)
    ∧ currentIndex (balancer w') = currentIndex (balancer w)
    ∧ brk w' = brk w.
Proof.
  intros Hnone. rewrite CheckAndRestoreUrls_unfold.
  set (w0 := with_balancer w _).
  destruct (for_each_invariant
              (λ w1, activeUrls (balancer w1) = activeUrls (balancer w)
                   ∧ removedUrls (balancer w1) = removedUrls (balancer w)
                   ∧ currentIndex (balancer w1) = currentIndex (balancer w)
                   ∧ brk w1 = brk w)
              (restore_entry url_Parse http_Do) order) with (w := w0)
    as (w1 & -> & Ha & Hm & Hc & Hb).
  - intros a w1 (Ha & Hm & Hc & Hb).
    destruct (removedUrls (balancer w1) !! a) as [s|] eqn:Hs.
    + destruct (restore_entry_unhealthy url_Parse http_Do a s w1 Hs)
        as (w2 & Hr & Hbal & Hbrk & _).
      { eapply Hnone. by rewrite <- Hm. }
      exists w2. split; [done|]. rewrite Hbal, Hbrk. done.
    + rewrite restore_entry_absent by done. by exists w1.
  - done.
  - eexists. split; [reflexivity|]. done.
Qed.

Lemma legacy_restore_entry_parses (a : nat) (w : World) :
  ∃ w', legacy_restore_entry url_Parse http_Do a w = Ret () w'.
Proof.
  unfold legacy_restore_entry, http_Get, http_NewRequestWithContext,
    DefaultClient_Do, url_Parse_new.
  run. destruct (removedUrls (balancer w) !! a) as [s|]; cbn; [|by eexists].
  destruct (url_Parse s) as [t|]; cbn; [|by eexists].
  destruct (http_Do (sent w) s); cbn; [|by eexists].
  by eexists.
Qed.

(** X11. The prober of the second program of [main.go] drops the error of
    [url.Parse] and would append a nil pointer when it fails; it never
    does: [http.Get] has parsed the same text before, so every run of the
    prober returns. *)
Theorem legacy_CheckAndRestoreUrls_never_faults (order : list nat) (w : World) :
  ∃ w', legacy_CheckAndRestoreUrls url_Parse http_Do order w = Ret () w'.
Proof.
  unfold legacy_CheckAndRestoreUrls, Lock, deferring, Unlock, update.
  unfold mbind, M_bind.
  match goal with
  | |- context [for_each order ?body ?w0] =>
      destruct (for_each_invariant (λ _, True) body order) with (w := w0)
        as (w1 & -> & _)
  end.
  - intros a w1 _. destruct (legacy_restore_entry_parses a w1) as [w2 ->].
    by exists w2.
  - done.
  - by eexists.
Qed.

End ProberOutcomes.

Lemma CheckAndRestoreUrls_restores_all_witness :
  ∃ w', CheckAndRestoreUrls parse_any mock_server [4] degraded = Ret () w'
    ∧ removedUrls (balancer w') = ∅
    ∧ length (activeUrls (balancer w')) = 3.
Proof.
  destruct (CheckAndRestoreUrls_restores_all parse_any mock_server [4] degraded)
    as (w' & Hrun & He & Hl).
  - done.
  - intros a [s Ha]. cbn in Ha. apply lookup_singleton_Some in Ha as [<- _].
    by left.
  - exists w'. split; [done|]. split; [done|]. rewrite Hl. reflexivity.
Defined.

Lemma CheckAndRestoreUrls_keeps_unhealthy_witness :
  ∃ w', CheckAndRestoreUrls parse_any (answering 503) [4] degraded = Ret () w'
    ∧ activeUrls (balancer w') = activeUrls (balancer degraded)
    ∧ removedUrls (balancer w') = removedUrls (balancer degraded).
Proof.
  destruct (CheckAndRestoreUrls_keeps_unhealthy parse_any (answering 503) [4]
              degraded) as (w' & Hrun & Ha & Hm & _).
  - done.
  - by exists w'.
Defined.

(** ** Dispatching, further *)

Lemma same_text_same_entry (urls : list URL) (u v : URL) :
  NoDup (texts urls) → u ∈ urls → v ∈ urls →
  URL_String u = URL_String v → u = v.
Proof.
  unfold texts. induction urls as [|x urls IH]; [by intros _ ?%elem_of_nil|].
  rewrite fmap_cons, NoDup_cons, !elem_of_cons.
  intros [Hx Hnd] [->|Hu] [->|Hv] He; [done| | |by apply IH].
  - destruct Hx. rewrite He. apply list_elem_of_fmap. eauto.
  - destruct Hx. rewrite <- He. apply list_elem_of_fmap. eauto.
Qed.

Lemma excise_selected (urls : list URL) (u v : URL) :
  NoDup (texts urls) → u ∈ urls → v ∈ urls →
  v = u ∨ v ∈ excise (URL_String u) urls.
Proof.
  induction urls as [|x urls IH]; [by intros _ ?%elem_of_nil|].
  intros Hnd Hu Hv. cbn [excise].
  destruct (decide (URL_String x = URL_String u)) as [He|Hne].
  - apply elem_of_cons in Hv as [->|Hv]; [|by right].
    left. eapply same_text_same_entry; [done|by left|done|done].
  - apply elem_of_cons in Hu as [->|Hu]; [done|].
    apply elem_of_cons in Hv as [->|Hv]; [right; by left|].
    unfold texts in Hnd. rewrite fmap_cons in Hnd.
    apply NoDup_cons in Hnd as [_ Hnd].
    destruct (IH Hnd Hu Hv) as [->|Hin]; [by left|right; by right].
Qed.

Section Dispatch.

Variable url_Parse : string → option string.
Variable http_Do : nat → string → option Response.

(** X12. When no backend can be reached, one call of [SendRequest] tries
    every active endpoint once and removes it: the call returns with
    [activeUrls] empty, after as many requests as there were active
    endpoints; every pointer that was active is a key of [removedUrls],
    no key has left it, and the last line logged is
    "No active servers available". *)
Theorem SendRequest_exhausts (fuel : nat) (w : World) :
  (∀ k s, http_Do k s = None) →
  (∀ u, u ∈ activeUrls (balancer w) → is_Some (url_Parse (URL_String u))) →
  NoDup (texts (activeUrls (balancer w))) →
  length (activeUrls (balancer w)) < fuel →
  ∃ w', SendRequest url_Parse http_Do fuel w = Ret () w'
    ∧ activeUrls (balancer w') = []
    ∧ sent w' = sent w + length (activeUrls (balancer w))
    ∧ (∀ u, u ∈ activeUrls (balancer w) →
            is_Some (removedUrls (balancer w') !! addr u))
    ∧ (∀ a, is_Some (removedUrls (balancer w) !! a) →
            is_Some (removedUrls (balancer w') !! a))
    ∧ last (trace w') = Some (EvLog "No active servers available").
Proof.
  intros Hdown. revert w.
  induction fuel as [|fuel IH]; intros w Hparse Hnd Hlen; [lia|].
  destruct (decide (activeUrls (balancer w) = [])) as [He|Hne].
  - rewrite SendRequest_no_servers by done.
    eexists. split; [reflexivity|]. cbn. rewrite He. cbn.
    split; [done|]. split; [lia|]. split; [by intros u ?%elem_of_nil|].
    split; [done|]. apply last_snoc.
  - destruct (lookup_lt_is_Some_2 _ _ (slot_in_range _ Hne)) as [u Hu].
    pose proof (list_elem_of_lookup_2 _ _ _ Hu) as Hin.
    rewrite (SendRequest_step url_Parse http_Do fuel w u Hu), Hdown.
    destruct (Hparse u Hin) as [t ->].
    unfold mbind, M_bind. rewrite RemoveURL_run.
    set (w1 := with_balancer _ _).
    assert (URL_String u ∈ texts (activeUrls (balancer w))) as Hs
      by (apply list_elem_of_fmap; eauto).
    pose proof (excise_shortens _ _ Hs) as Hshort.
    destruct (IH w1) as (w' & Hrun & Ha & Hsent & Hkeys & Hmono & Hlast).
    + intros v Hv. apply Hparse.
      eapply elem_of_sublist; [exact Hv|apply excise_sublist_urls].
    + eapply sublist_NoDup; [exact Hnd|apply excise_sublist].
    + cbn. lia.
    + exists w'. split; [done|]. split; [done|].
      split; [rewrite Hsent; cbn; lia|]. split; [|split; [|done]].
      * intros v Hv. destruct (excise_selected _ u v Hnd Hin Hv) as [->|Hv'].
        -- apply Hmono. cbn. rewrite lookup_insert_eq. by eexists.
        -- by apply Hkeys.
      * intros a Ha'. apply Hmono. cbn. apply lookup_insert_is_Some'. by right.
Qed.

Lemma only_removes_refl (w : World) : only_removes w w.
Proof. unfold only_removes. repeat split; try done. Qed.

Lemma only_removes_trans (w1 w2 w3 : World) :
  only_removes w1 w2 → only_removes w2 w3 → only_removes w1 w3.
Proof.
  intros (Ha & Hm & Hb & Hs) (Ha' & Hm' & Hb' & Hs').
  unfold only_removes. split; [by etrans|]. split; [auto|]. split; [congruence|lia].
Qed.

Lemma only_removes_log (line : string) (w w1 : World) :
  only_removes w w1 →
  match log_Println line w1 with
  | Ret _ w' => only_removes w w'
  | Panic => False
  | OutOfFuel => True
  end.
Proof. done. Qed.

Lemma only_removes_answered (s : string) (w : World) :
  only_removes w (answered s (selected w)).
Proof.
  unfold only_removes. cbn. repeat split; try done. lia.
Qed.

(** X13. Whatever the network answers and however long the loop runs,
    [SendRequest] never faults, and what it leaves behind differs from what
    it found by removals only: [activeUrls] is a sublist of what it was,
    no key has left [removedUrls], and nothing new has been parsed. *)
Theorem SendRequest_only_removes (fuel : nat) (w : World) :
  match SendRequest url_Parse http_Do fuel w with
  | Ret _ w' => only_removes w w'
  | Panic => False
  | OutOfFuel => True
  end.
Proof.
  revert w. induction fuel as [|fuel IH]; intros w; [done|].
  destruct (decide (activeUrls (balancer w) = [])) as [He|Hne].
  - rewrite SendRequest_no_servers by done. cbn.
    unfold only_removes. cbn. rewrite He. done.
  - destruct (lookup_lt_is_Some_2 _ _ (slot_in_range _ Hne)) as [u Hu].
    rewrite (SendRequest_step url_Parse http_Do fuel w u Hu).
    pose proof (only_removes_answered (URL_String u) w) as Hans.
    destruct (url_Parse (URL_String u)) as [t|].
    + destruct (http_Do (sent w) (URL_String u)) as [resp|].
      * destruct (decide (StatusCode resp = 200%Z)).
        -- destruct (Body resp); by apply only_removes_log.
        -- specialize (IH (answered (URL_String u) (selected w))).
           destruct (SendRequest _ _ _ _) as [[] w'| |]; [|done|done].
           by eapply only_removes_trans.
      * unfold mbind, M_bind. rewrite RemoveURL_run.
        set (w1 := with_balancer _ _). specialize (IH w1).
        destruct (SendRequest _ _ _ _) as [[] w'| |]; [|done|done].
        eapply only_removes_trans; [|exact IH].
        unfold only_removes. cbn. split; [apply excise_sublist_urls|].
        split; [|split; [done|lia]].
        intros a Ha. apply lookup_insert_is_Some'. by right.
    + unfold only_removes. cbn. done.
Qed.

(** X14. [sendRequest] of the second program of [main.go] makes one
    attempt: it always returns, sends at most one request, and removes the
    selected endpoint exactly when no response comes back; an answer with
    any status leaves both sets as they were. *)
Theorem legacy_sendRequest_single_attempt (w : World) :
  ∃ w', legacy_sendRequest url_Parse http_Do w = Ret () w'
    ∧ (sent w' ≤ S (sent w))%nat
    ∧ match activeUrls (balancer w) !! main_slot (balancer w) with
      | Some u =>
          match probe url_Parse http_Do (sent w) (URL_String u) with
          | None =>
              activeUrls (balancer w')
              = excise (URL_String u) (activeUrls (balancer w))
              ∧ removedUrls (balancer w')
                = <[addr u := URL_String u]> (removedUrls (balancer w))
          | Some _ =>
              activeUrls (balancer w') = activeUrls (balancer w)
              ∧ removedUrls (balancer w') = removedUrls (balancer w)
          end
      | None =>
          activeUrls (balancer w) = []
          ∧ activeUrls (balancer w') = []
          ∧ removedUrls (balancer w') = removedUrls (balancer w)
      end.
Proof.
  destruct (decide (activeUrls (balancer w) = [])) as [He|Hne].
  - unfold legacy_sendRequest, legacy_GetNextURL, mbind, M_bind.
    rewrite (main_GetNextURL_empty w He). rewrite He. cbn.
    eexists. split; [reflexivity|]. cbn. split; [lia|done].
  - destruct (lookup_lt_is_Some_2 _ _ (main_slot_in_range _ Hne)) as [u Hu].
    rewrite (legacy_sendRequest_step url_Parse http_Do w u Hu), Hu.
    unfold probe, legacy_RemoveURL.
    destruct (url_Parse (URL_String u)) as [t|].
    + destruct (http_Do (sent w) (URL_String u)) as [resp|].
      * destruct (decide (StatusCode resp ≠ 200%Z)).
        -- eexists. split; [reflexivity|]. cbn. split; [lia|done].
        -- destruct (Body resp); eexists; (split; [reflexivity|]); cbn;
             (split; [lia|done]).
      * eexists. split; [reflexivity|]. cbn. split; [lia|done].
    + eexists. split; [reflexivity|]. cbn. split; [lia|done].
Qed.

End Dispatch.

Lemma SendRequest_exhausts_witness :
  ∃ w', SendRequest parse_any unreachable 4 serving = Ret () w'
    ∧ activeUrls (balancer w') = []
    ∧ sent w' = 3.
Proof.
  destruct (SendRequest_exhausts parse_any unreachable 4 serving)
    as (w' & Hrun & Ha & Hs & _).
  - done.
  - intros u _. by eexists.
  - cbn. distinct_entries.
  - cbn. lia.
  - exists w'. split; [done|]. split; [done|]. rewrite Hs. reflexivity.
Defined.

(** ** Selection, further *)

Lemma omap_length_le {A B} (f : A → option B) (l : list A) :
  (length (omap f l) ≤ length l)%nat.
Proof.
  induction l as [|x l IH]; cbn; [lia|]. destruct (f x); cbn; lia.
Qed.

Lemma rotation_full (urls : list URL) :
  rotation urls 0 (length urls) = Some <$> urls.
Proof.
  apply list_eq. intros i. rewrite list_lookup_fmap.
  destruct (decide (i < length urls)) as [Hlt|Hge].
  - rewrite rotation_lookup by done. rewrite Z.add_0_l.
    rewrite Z.mod_small by lia. rewrite Nat2Z.id.
    destruct (lookup_lt_is_Some_2 _ _ Hlt) as [u ->]. done.
  - rewrite (lookup_ge_None_2 urls) by lia.
    apply lookup_ge_None_2. rewrite rotation_length. lia.
Qed.

(** X15. On a balancer that has just been built, one full round of
    selections returns every backend that parsed once, in the order of the
    configuration; this is what [TestRoundRobinBalancer] checks on three
    backends. *)
Theorem fresh_balancer_serves_in_order (url_Parse : string → option string)
    (backendUrls : list URL) (w0 : World) :
  (Z.of_nat (length backendUrls) ≤ uint64_modulus)%Z →
  ∃ picks w',
    (install url_Parse backendUrls;;
     select_many (length (omap url_Parse (texts backendUrls)))) w0
    = Ret picks w'
    ∧ picks = Some <$> activeUrls (balancer w')
    ∧ texts (activeUrls (balancer w')) = omap url_Parse (texts backendUrls).
Proof.
  intros Hlen. unfold install, NewRoundRobinBalancer, mbind, M_bind.
  destruct (parse_backends_builds url_Parse backendUrls w0) as (urls & -> & Ht & _).
  cbn. rewrite <- Ht. unfold texts at 1. rewrite length_fmap.
  set (w1 := mkWorld _ _ _ _).
  destruct (select_many_rotation (length urls) w1) as (w' & Hrun & Ha & _).
  - done.
  - cbn. pose proof (omap_length_le url_Parse (texts backendUrls)) as Hle.
    rewrite <- Ht in Hle. unfold texts in Hle. rewrite !length_fmap in Hle. lia.
  - cbn in Hrun. exists (Some <$> urls), w'.
    rewrite Hrun, rotation_full. split; [done|]. rewrite Ha. done.
Qed.

Lemma fresh_balancer_serves_in_order_witness :
  ∃ picks w',
    (install parse_any backends;;
     select_many (length (omap parse_any (texts backends)))) boot
    = Ret picks w'
    ∧ picks = Some <$> activeUrls (balancer w')
    ∧ texts (activeUrls (balancer w')) = omap parse_any (texts backends).
Proof.
  apply (fresh_balancer_serves_in_order parse_any backends boot).
  vm_compute. discriminate.
Defined.

(** X16. [GetNextURL] of [main.go] reads the same rotation as the one of
    [loadbalance.go], one position further on: as long as the cursor stays
    below [2^64], [n] consecutive selections return the entries at the
    positions [c + 1], ..., [c + n] of the rotation, and change neither
    set. *)
Theorem main_select_many_rotation (n : nat) (w : World) :
  (0 ≤ currentIndex (balancer w))%Z →
  (currentIndex (balancer w) + Z.of_nat n < uint64_modulus)%Z →
  ∃ w', main_select_many n w
        = Ret (rotation (activeUrls (balancer w))
                 (currentIndex (balancer w) + 1) n) w'
    ∧ activeUrls (balancer w') = activeUrls (balancer w)
    ∧ removedUrls (balancer w') = removedUrls (balancer w).
Proof.
  revert w. induction n as [|n IH]; intros w Hc Hn.
  - eexists. split; [reflexivity|done].
  - cbn [main_select_many rotation]. unfold mbind, M_bind.
    destruct (decide (activeUrls (balancer w) = [])) as [He|Hne].
    + rewrite (main_GetNextURL_empty w He).
      destruct (IH (with_balancer w
        (mkBalancer [] (removedUrls (balancer w)) (currentIndex (balancer w)) false)))
        as (w' & Hrun & Ha & Hr); [done|cbn; lia|].
      rewrite Hrun. cbn in *. exists w'. rewrite He. split; [|done].
      unfold mret, M_ret. cbn. do 2 f_equal. apply rotation_nil.
    + pose proof (main_slot_in_range _ Hne) as Hlt.
      destruct (lookup_lt_is_Some_2 _ _ Hlt) as [u Hu].
      rewrite (main_GetNextURL_pick w u Hu).
      assert (wrap64 (currentIndex (balancer w) + 1)
              = (currentIndex (balancer w) + 1)%Z) as Hw.
      { unfold wrap64. apply Z.mod_small. unfold uint64_modulus in *. lia. }
      destruct (IH (with_balancer w
        (mkBalancer (activeUrls (balancer w)) (removedUrls (balancer w))
           (wrap64 (currentIndex (balancer w) + 1)) false)))
        as (w' & Hrun & Ha & Hr).
      { cbn. rewrite Hw. lia. }
      { cbn. rewrite Hw. lia. }
      rewrite Hrun. cbn in *. exists w'. split; [|done].
      unfold main_slot in Hu. rewrite Hw in Hu. rewrite Hu, Hw. reflexivity.
Qed.

Lemma main_select_many_rotation_witness :
  ∃ w', main_select_many 3 serving
        = Ret [Some (mkURL 4 "http://localhost:82");
               Some (mkURL 5 "http://localhost:83");
               Some (mkURL 3 "http://localhost:81")] w'.
Proof.
  destruct (main_select_many_rotation 3 serving) as (w' & Hrun & _).
  - done.
  - vm_compute. reflexivity.
  - exists w'. rewrite Hrun. reflexivity.
Defined.

(** X17. When the endpoint [GetNextURL] selects answers with status 200,
    [SendRequest] returns after that one request, sent with the mutex
    free: it logs the body (or that the body could not be read), moves the
    cursor by one and leaves both sets as they were. *)
Theorem SendRequest_serves (url_Parse : string → option string)
    (http_Do : nat → string → option Response)
    (fuel : nat) (w : World) (u : URL) (resp : Response) :
  activeUrls (balancer w) !! slot (balancer w) = Some u →
  probe url_Parse http_Do (sent w) (URL_String u) = Some resp →
  StatusCode resp = 200%Z →
  SendRequest url_Parse http_Do (S fuel) w
  = Ret () (mkWorld
      (mkBalancer (activeUrls (balancer w)) (removedUrls (balancer w))
                  (wrap64 (currentIndex (balancer w) + 1)) false)
      (brk w) (S (sent w))
      (trace w ++ [EvRoundTrip (URL_String u) false;
                   EvLog match Body resp with
                         | Some body => ("Response from server: " ++ body)%string
                         | None => "Error reading response"
                         end])).
Proof.
  intros Hu Hp Hs. apply probe_Some in Hp as [[t Ht] Hd].
  rewrite (SendRequest_step url_Parse http_Do fuel w u Hu), Ht, Hd.
  rewrite decide_True by done.
  destruct (Body resp); cbn; unfold log_Println, emit, answered, selected; cbn;
    by rewrite <- ?app_assoc.
Qed.

Lemma SendRequest_serves_witness :
  SendRequest parse_any mock_server 1 serving
  = Ret () (mkWorld
      (mkBalancer (activeUrls (balancer serving)) ∅ 1 false) 6 1
      [EvRoundTrip "http://localhost:81" false;
       EvLog "Response from server: mock response"]).
Proof.
  rewrite (SendRequest_serves parse_any mock_server 0 serving
             (mkURL 3 "http://localhost:81")
             (mkResponse 200 (Some "mock response"))); done.
Defined.
